(** * VideoConverter: a shallow embedding of the conversion job driver

    The React component [VideoConverter] keeps eight state cells, a
    reference to the engine instance (and one to the file input element,
    which is DOM only) and a handful of event handlers.  Two of the handlers
    ([loadFFmpeg], [convertVideo]) are asynchronous: they run up to their
    first [await], and are resumed later when the awaited promise settles.
    The embedding below keeps that structure: the synchronous prefix of a
    handler is a function on the component state, and every suspension
    point is a stage of a pending task which the environment settles with
    a value or with an exception.

    The transcoding engine, the dynamic imports and the browser's blob URL
    registry are external; they appear as the environment of the
    transition system (task outcomes, engine events) and as a record of the
    calls the component issued to them. *)

From Stdlib Require Import ZArith Lia Ascii.
From stdpp Require Import gmap strings list fin_maps pretty sorting.

Local Open Scope string_scope.
Local Open Scope list_scope.
Local Open Scope Z_scope.

(** ** JavaScript primitives used by the component *)

Module Js.

(** [s.split(sep)] for a one-character separator.  The result is never
    empty: a string without the separator is returned as its only piece.
    File names are byte strings here; the separator ["."] is a single
    byte in UTF-8 and a single unit in UTF-16, so both encodings are cut
    at the same places. *)
Fixpoint split (sep : ascii) (s : string) : list string :=
  match s with
  | EmptyString => [EmptyString]
  | String c rest =>
      if Ascii.eqb c sep then EmptyString :: split sep rest
      else match split sep rest with
           | [] => [String c EmptyString]
           | piece :: pieces => String c piece :: pieces
           end
  end.

(** [arr.pop()] as an expression: the last element, [undefined] on an
    empty array. *)
Definition pop (arr : list string) : option string := last arr.

(** [arr[i]]: [undefined] out of range. *)
Definition index (arr : list string) (i : nat) : option string := arr !! i.

(** A value spliced into a template literal; [undefined] prints as the
    word. *)
Definition interpolate (v : option string) : string :=
  match v with
  | Some s => s
  | None => "undefined"
  end.

(** [arr.slice(-n)]: the last [n] elements (all of them when the array
    is shorter). *)
Definition slice_last {A} (n : nat) (arr : list A) : list A :=
  drop (length arr - n)%nat arr.

(** *** Numbers

    A JavaScript number is an IEEE 754 binary64 value.  A finite one is
    written [Finite m e] for [m * 2^e]; several pairs denote the same
    number, and [-0] is not told from [0] (the component prints and
    compares the progress value only).  The functions below are defined on
    every pair, also on those with more than 53 significant bits, which no
    double has. *)
Inductive Number :=
| Finite (m e : Z)
| NaN
| PosInfinity
| NegInfinity.

Definition of_Z (z : Z) : Number := Finite z 0.

(** [N / 2^t] rounded to the nearest integer, a tie to the even one
    ([0 <= N], [0 < t]). *)
Definition round_even (N t : Z) : Z :=
  let q := N / 2 ^ t in
  let r := N mod 2 ^ t in
  let h := 2 ^ (t - 1) in
  if r <? h then q
  else if h <? r then q + 1
  else if Z.even q then q else q + 1.

(** [N] rounded to a multiple of [2^t]; unchanged when [t <= 0]. *)
Definition round_to (N t : Z) : Z :=
  if t <=? 0 then N else round_even N t * 2 ^ t.

(** The spacing of the doubles around [N * 2^E], in units of [2^E]:
    53 significant bits, and never finer than [2^-1074]. *)
Definition grid (N E : Z) : Z := Z.max (Z.log2 N - 52) (-1074 - E).

(** The double nearest to [N * 2^E], as a multiple of [2^E] ([0 <= N]). *)
Definition round53 (N E : Z) : Z := round_to N (grid N E).

(** Whether [F * 2^E] reaches [2^1024], where rounding yields infinity. *)
Definition overflows (F E : Z) : bool :=
  if 0 <=? E then 2 ^ 1024 <=? F * 2 ^ E else 2 ^ (1024 - E) <=? F.

Definition is_zero (x : Number) : bool :=
  match x with Finite m _ => m =? 0 | _ => false end.

Definition is_negative (x : Number) : bool :=
  match x with
  | Finite m _ => m <? 0
  | NegInfinity => true
  | _ => false
  end.

Definition infinity (negative : bool) : Number :=
  if negative then NegInfinity else PosInfinity.

(** [x * y]: the exact product rounded to the nearest double, ties to
    even. *)
Definition times (x y : Number) : Number :=
  match x, y with
  | NaN, _ | _, NaN => NaN
  | Finite m1 e1, Finite m2 e2 =>
      let M := m1 * m2 in
      let E := e1 + e2 in
      let F := round53 (Z.abs M) E in
      if overflows F E then infinity (M <? 0)
      else Finite (Z.sgn M * F) E
  | _, _ =>
      if is_zero x || is_zero y then NaN
      else infinity (xorb (is_negative x) (is_negative y))
  end.

(** The integer nearest to [F * 2^E], a half towards plus infinity. *)
Definition nearest_integer (F E : Z) : Z :=
  if 0 <=? E then F * 2 ^ E else (F + 2 ^ (- E - 1)) / 2 ^ (- E).

(** [Math.round(x)] *)
Definition Math_round (x : Number) : Number :=
  match x with
  | Finite F E => of_Z (nearest_integer F E)
  | _ => x
  end.

(** [x <= y] *)
Definition le (x y : Number) : Prop :=
  match x, y with
  | NaN, _ | _, NaN => False
  | Finite m1 e1, Finite m2 e2 =>
      m1 * 2 ^ (e1 - Z.min e1 e2) <= m2 * 2 ^ (e2 - Z.min e1 e2)
  | NegInfinity, _ | _, PosInfinity => True
  | _, _ => False
  end.

End Js.

(** A numeric literal where a number is expected, as in [setProgress(0)]. *)
Coercion Js.of_Z : Z >-> Js.Number.

(** ** Data *)

Record File := {
  file_name : string;
  file_bytes : list ascii
}.

Record Blob := {
  blob_parts : list ascii;
  blob_type : string
}.

(** [interface ConvertedFile { blob; name; url }] *)
Record ConvertedFile := {
  blob : Blob;
  name : string;
  url : string
}.

(** ** The command line of [convertVideo] *)

(** [const inputName = `input.${file.name.split(".").pop()}`] *)
Definition inputName (f : File) : string :=
  "input." +:+ Js.interpolate (Js.pop (Js.split "." (file_name f))).

(** [const outputName = `output.${outputFormat}`] *)
Definition outputName (outputFormat : string) : string :=
  "output." +:+ outputFormat.

(** The tokens the [switch (outputFormat)] pushes. *)
Definition format_flags (outputFormat : string) : list string :=
  if String.eqb outputFormat "mp4" then
    ["-c:v"; "libx264"; "-c:a"; "aac"; "-preset"; "medium"]
  else if String.eqb outputFormat "webm" then
    ["-c:v"; "libvpx-vp9"; "-c:a"; "libopus"]
  else if String.eqb outputFormat "avi" then
    ["-c:v"; "libx264"; "-c:a"; "mp3"]
  else if String.eqb outputFormat "mov" then
    ["-c:v"; "libx264"; "-c:a"; "aac"]
  else if String.eqb outputFormat "mkv" then
    ["-c:v"; "libx264"; "-c:a"; "aac"]
  else
    ["-c:v"; "libx264"; "-c:a"; "aac"].

(** The array literal, then the pushes of the switch, then the final
    [command.push(outputName)]. *)
Definition command (f : File) (outputFormat : string) : list string :=
  ["-i"; inputName f;
   "-c:v"; "libx264"; "-c:a"; "aac"; "-preset"; "medium";
   outputName outputFormat]
  ++ format_flags outputFormat
  ++ [outputName outputFormat].

(** [`video/${outputFormat}`] *)
Definition media_type (outputFormat : string) : string :=
  "video/" +:+ outputFormat.

(** [`${file.name.split(".")[0]} .  ${outputFormat}`] *)
Definition converted_name (f : File) (outputFormat : string) : string :=
  Js.interpolate (Js.index (Js.split "." (file_name f)) 0)
  +:+ " .  " +:+ outputFormat.

(** ** Component state and its environment *)

(** What an awaited promise settles to.  A rejection carries the text the
    handlers print: [err instanceof Error ? err.message : String(err)]. *)
Inductive Settled :=
| Fulfilled (data : list ascii)
| Rejected (errorMsg : string).

(** Suspension points of [loadFFmpeg]. *)
Inductive LoadStage :=
| AwaitImportFFmpeg          (* await import("@ffmpeg/ffmpeg") *)
| AwaitImportUtil            (* await import("@ffmpeg/util") *)
| AwaitEngineLoad.           (* await ffmpegRef.current.load({...}) *)

(** Suspension points of [convertVideo].  The local
    [const ffmpeg = ffmpegRef.current] is part of the frame once the
    first call on it has been issued. *)
Inductive ConvertStage :=
| AwaitUtil                        (* await import("@ffmpeg/util") *)
| AwaitFetchFile (ffmpeg : nat)    (* await fetchFile(file) *)
| AwaitWriteFile (ffmpeg : nat)    (* await ffmpeg.writeFile(...) *)
| AwaitExec (ffmpeg : nat)         (* await ffmpeg.exec(command) *)
| AwaitReadFile (ffmpeg : nat).    (* await ffmpeg.readFile(outputName) *)

(** A suspended handler.  [convertVideo] closes over the [file] and the
    [outputFormat] of the render in which the button was clicked. *)
Inductive Task :=
| LoadTask (stage : LoadStage)
| ConvertTask (captured_file : File) (captured_format : string)
              (stage : ConvertStage).

(** Calls issued to the engine, in order. *)
Inductive EngineCall :=
| CallNew (instance : nat)
| CallLoad (instance : nat) (coreURL wasmURL workerURL : string)
| CallWriteFile (instance : nat) (path : string) (data : list ascii)
| CallExec (instance : nat) (args : list string)
| CallReadFile (instance : nat) (path : string).

Record State := {
  (* useState cells *)
  file : option File;
  outputFormat : string;
  isLoading : bool;
  isFFmpegLoaded : bool;
  progress : Js.Number;
  convertedFile : option ConvertedFile;
  error : string;
  logs : list string;
  (* useRef cell: the engine instance, numbered by creation order *)
  ffmpegRef : option nat;
  (* environment *)
  pending : list Task;               (* handlers suspended at an await *)
  engineCalls : list EngineCall;     (* calls received by the engine *)
  blobUrls : gmap string Blob;       (* the browser's blob URL registry *)
  downloads : list (string * string) (* anchors clicked: href, download *)
}.

Definition initial : State := {|
  file := None;
  outputFormat := "mp4";
  isLoading := false;
  isFFmpegLoaded := false;
  progress := 0;
  convertedFile := None;
  error := "";
  logs := [];
  ffmpegRef := None;
  pending := [];
  engineCalls := [];
  blobUrls := ∅;
  downloads := []
|}.

(** *** State setters *)

Definition setFile (v : option File) (s : State) : State :=
  {| file := v; outputFormat := outputFormat s; isLoading := isLoading s;
     isFFmpegLoaded := isFFmpegLoaded s; progress := progress s;
     convertedFile := convertedFile s; error := error s; logs := logs s;
     ffmpegRef := ffmpegRef s; pending := pending s;
     engineCalls := engineCalls s; blobUrls := blobUrls s;
     downloads := downloads s |}.

Definition setOutputFormat (v : string) (s : State) : State :=
  {| file := file s; outputFormat := v; isLoading := isLoading s;
     isFFmpegLoaded := isFFmpegLoaded s; progress := progress s;
     convertedFile := convertedFile s; error := error s; logs := logs s;
     ffmpegRef := ffmpegRef s; pending := pending s;
     engineCalls := engineCalls s; blobUrls := blobUrls s;
     downloads := downloads s |}.

Definition setIsLoading (v : bool) (s : State) : State :=
  {| file := file s; outputFormat := outputFormat s; isLoading := v;
     isFFmpegLoaded := isFFmpegLoaded s; progress := progress s;
     convertedFile := convertedFile s; error := error s; logs := logs s;
     ffmpegRef := ffmpegRef s; pending := pending s;
     engineCalls := engineCalls s; blobUrls := blobUrls s;
     downloads := downloads s |}.

Definition setIsFFmpegLoaded (v : bool) (s : State) : State :=
  {| file := file s; outputFormat := outputFormat s; isLoading := isLoading s;
     isFFmpegLoaded := v; progress := progress s;
     convertedFile := convertedFile s; error := error s; logs := logs s;
     ffmpegRef := ffmpegRef s; pending := pending s;
     engineCalls := engineCalls s; blobUrls := blobUrls s;
     downloads := downloads s |}.

Definition setProgress (v : Js.Number) (s : State) : State :=
  {| file := file s; outputFormat := outputFormat s; isLoading := isLoading s;
     isFFmpegLoaded := isFFmpegLoaded s; progress := v;
     convertedFile := convertedFile s; error := error s; logs := logs s;
     ffmpegRef := ffmpegRef s; pending := pending s;
     engineCalls := engineCalls s; blobUrls := blobUrls s;
     downloads := downloads s |}.

Definition setConvertedFile (v : option ConvertedFile) (s : State) : State :=
  {| file := file s; outputFormat := outputFormat s; isLoading := isLoading s;
     isFFmpegLoaded := isFFmpegLoaded s; progress := progress s;
     convertedFile := v; error := error s; logs := logs s;
     ffmpegRef := ffmpegRef s; pending := pending s;
     engineCalls := engineCalls s; blobUrls := blobUrls s;
     downloads := downloads s |}.

Definition setError (v : string) (s : State) : State :=
  {| file := file s; outputFormat := outputFormat s; isLoading := isLoading s;
     isFFmpegLoaded := isFFmpegLoaded s; progress := progress s;
     convertedFile := convertedFile s; error := v; logs := logs s;
     ffmpegRef := ffmpegRef s; pending := pending s;
     engineCalls := engineCalls s; blobUrls := blobUrls s;
     downloads := downloads s |}.

(** [setLogs] is called with an updater [(prev) => ...] or with a value
    (an updater that ignores [prev]). *)
Definition setLogs (f : list string -> list string) (s : State) : State :=
  {| file := file s; outputFormat := outputFormat s; isLoading := isLoading s;
     isFFmpegLoaded := isFFmpegLoaded s; progress := progress s;
     convertedFile := convertedFile s; error := error s; logs := f (logs s);
     ffmpegRef := ffmpegRef s; pending := pending s;
     engineCalls := engineCalls s; blobUrls := blobUrls s;
     downloads := downloads s |}.

Definition setFFmpegRef (v : option nat) (s : State) : State :=
  {| file := file s; outputFormat := outputFormat s; isLoading := isLoading s;
     isFFmpegLoaded := isFFmpegLoaded s; progress := progress s;
     convertedFile := convertedFile s; error := error s; logs := logs s;
     ffmpegRef := v; pending := pending s;
     engineCalls := engineCalls s; blobUrls := blobUrls s;
     downloads := downloads s |}.

Definition setPending (v : list Task) (s : State) : State :=
  {| file := file s; outputFormat := outputFormat s; isLoading := isLoading s;
     isFFmpegLoaded := isFFmpegLoaded s; progress := progress s;
     convertedFile := convertedFile s; error := error s; logs := logs s;
     ffmpegRef := ffmpegRef s; pending := v;
     engineCalls := engineCalls s; blobUrls := blobUrls s;
     downloads := downloads s |}.

(** The engine receives one more call. *)
Definition call (c : EngineCall) (s : State) : State :=
  {| file := file s; outputFormat := outputFormat s; isLoading := isLoading s;
     isFFmpegLoaded := isFFmpegLoaded s; progress := progress s;
     convertedFile := convertedFile s; error := error s; logs := logs s;
     ffmpegRef := ffmpegRef s; pending := pending s;
     engineCalls := engineCalls s ++ [c]; blobUrls := blobUrls s;
     downloads := downloads s |}.

(** [URL.createObjectURL(blob)]: the registry gains an entry and its key
    is returned.  Nothing in the component calls [URL.revokeObjectURL]. *)
Definition fresh_url (s : State) : string :=
  "blob:" +:+ pretty (size (blobUrls s)).

Definition createObjectURL (b : Blob) (s : State) : State :=
  {| file := file s; outputFormat := outputFormat s; isLoading := isLoading s;
     isFFmpegLoaded := isFFmpegLoaded s; progress := progress s;
     convertedFile := convertedFile s; error := error s; logs := logs s;
     ffmpegRef := ffmpegRef s; pending := pending s;
     engineCalls := engineCalls s;
     blobUrls := <[fresh_url s := b]> (blobUrls s);
     downloads := downloads s |}.

(** [a.href = url; a.download = name; a.click()] *)
Definition click_anchor (href download : string) (s : State) : State :=
  {| file := file s; outputFormat := outputFormat s; isLoading := isLoading s;
     isFFmpegLoaded := isFFmpegLoaded s; progress := progress s;
     convertedFile := convertedFile s; error := error s; logs := logs s;
     ffmpegRef := ffmpegRef s; pending := pending s;
     engineCalls := engineCalls s; blobUrls := blobUrls s;
     downloads := downloads s ++ [(href, download)] |}.

(** ** Event handlers *)

Definition coreURL : string :=
  "https://unpkg.com/@ffmpeg/core@0.12.6/dist/umd/ffmpeg-core.js".
Definition wasmURL : string :=
  "https://unpkg.com/@ffmpeg/core@0.12.6/dist/umd/ffmpeg-core.wasm".
Definition workerURL : string :=
  "https://unpkg.com/@ffmpeg/core@0.12.6/dist/umd/ffmpeg-core.worker.js".

(** The message of the [TypeError] raised by a method call on [null]. *)
Definition null_receiver_message : string :=
  "Cannot read properties of null (reading 'writeFile')".

(** Number of engine instances constructed so far. *)
Definition is_new (c : EngineCall) : bool :=
  match c with CallNew _ => true | _ => false end.

Definition instances (s : State) : nat :=
  length (List.filter is_new (engineCalls s)).

Definition spawn (t : Task) (s : State) : State :=
  setPending (pending s ++ [t]) s.

(** [loadFFmpeg], up to its first [await]. *)
Definition loadFFmpeg (s : State) : State :=
  if isFFmpegLoaded s then s
  else
    spawn (LoadTask AwaitImportFFmpeg)
      (setLogs (fun prev => prev ++ ["Loading FFmpeg..."])
         (setIsLoading true s)).

Definition load_catch (errorMsg : string) (s : State) : State :=
  setLogs (fun prev => prev ++ ["Error loading FFmpeg: " +:+ errorMsg])
    (setError ("Failed to load FFmpeg: " +:+ errorMsg) s).

Definition load_finally (s : State) : State := setIsLoading false s.

(** [loadFFmpeg] resumed at [stage] with the settled promise: the next
    suspension point, if any, and the state. *)
Definition resume_load (stage : LoadStage) (r : Settled) (s : State)
  : option Task * State :=
  match r with
  | Rejected errorMsg => (None, load_finally (load_catch errorMsg s))
  | Fulfilled _ =>
      match stage with
      | AwaitImportFFmpeg => (Some (LoadTask AwaitImportUtil), s)
      | AwaitImportUtil =>
          let n := instances s in
          (Some (LoadTask AwaitEngineLoad),
           call (CallLoad n coreURL wasmURL workerURL)
             (setFFmpegRef (Some n) (call (CallNew n) s)))
      | AwaitEngineLoad =>
          (None,
           load_finally
             (setLogs (fun prev => prev ++ ["FFmpeg loaded successfully!"])
                (setIsFFmpegLoaded true s)))
      end
  end.

(** The listener registered with [on("log", ...)]. *)
Definition on_log (message : string) (s : State) : State :=
  setLogs (fun prev => Js.slice_last 10 prev ++ [message]) s.

(** The listener registered with [on("progress", ...)]. *)
Definition on_progress (ratio : Js.Number) (s : State) : State :=
  setProgress (Js.Math_round (Js.times ratio 100)) s.

Definition handleFileSelect (selectedFile : option File) (s : State) : State :=
  match selectedFile with
  | Some f =>
      setLogs (fun _ => [])
        (setProgress 0
           (setError ""
              (setConvertedFile None
                 (setFile (Some f) s))))
  | None => s
  end.

(** [convertVideo], up to its first [await]. *)
Definition convertVideo (s : State) : State :=
  match file s with
  | None => s
  | Some f =>
      if negb (isFFmpegLoaded s) then s
      else
        spawn (ConvertTask f (outputFormat s) AwaitUtil)
          (setLogs
             (fun prev =>
                prev ++ ["Starting conversion to " +:+ outputFormat s +:+ "..."])
             (setProgress 0
                (setError ""
                   (setIsLoading true s))))
  end.

Definition convert_catch (errorMsg : string) (s : State) : State :=
  setLogs (fun prev => prev ++ ["Error loading FFmpeg: " +:+ errorMsg])
    (setError ("Failed to load FFmpeg: " +:+ errorMsg) s).

Definition convert_finally (s : State) : State :=
  setProgress 0 (setIsLoading false s).

(** The tail of the [try] block once [readFile] has delivered [data]. *)
Definition convert_success (f : File) (fmt : string) (data : list ascii)
    (s : State) : State :=
  let b := {| blob_parts := data; blob_type := media_type fmt |} in
  let u := fresh_url s in
  setLogs (fun prev => prev ++ ["Conversion completed successfully!"])
    (setConvertedFile
       (Some {| blob := b; name := converted_name f fmt; url := u |})
       (createObjectURL b s)).

(** [convertVideo] resumed at [stage] with the settled promise. *)
Definition resume_convert (f : File) (fmt : string) (stage : ConvertStage)
    (r : Settled) (s : State) : option Task * State :=
  match r with
  | Rejected errorMsg => (None, convert_finally (convert_catch errorMsg s))
  | Fulfilled data =>
      match stage with
      | AwaitUtil =>
          (* [ffmpeg.writeFile] is looked up before its arguments are
             evaluated *)
          match ffmpegRef s with
          | None =>
              (None, convert_finally (convert_catch null_receiver_message s))
          | Some ffmpeg => (Some (ConvertTask f fmt (AwaitFetchFile ffmpeg)), s)
          end
      | AwaitFetchFile ffmpeg =>
          (Some (ConvertTask f fmt (AwaitWriteFile ffmpeg)),
           call (CallWriteFile ffmpeg (inputName f) data) s)
      | AwaitWriteFile ffmpeg =>
          (Some (ConvertTask f fmt (AwaitExec ffmpeg)),
           call (CallExec ffmpeg (command f fmt)) s)
      | AwaitExec ffmpeg =>
          (Some (ConvertTask f fmt (AwaitReadFile ffmpeg)),
           call (CallReadFile ffmpeg (outputName fmt)) s)
      | AwaitReadFile _ =>
          (None, convert_finally (convert_success f fmt data s))
      end
  end.

Definition downloadFile (s : State) : State :=
  match convertedFile s with
  | None => s
  | Some c => click_anchor (url c) (name c) s
  end.

(** [fileInputRef.current.value = ""] touches the DOM input only and is
    not part of the state. *)
Definition resetConverter (s : State) : State :=
  setLogs (fun _ => [])
    (setProgress 0
       (setError ""
          (setConvertedFile None
             (setFile None s)))).

(** ** The transition system *)

Inductive Event :=
| ClickInitialize
| ChooseFile (selectedFile : option File)
| SelectFormat (value : string)
| ClickConvert
| ClickReset
| ClickDownload
| Settle (i : nat) (r : Settled)
| EngineLog (message : string)
| EngineProgress (ratio : Js.Number).

Definition resume (t : Task) (r : Settled) (s : State) : option Task * State :=
  match t with
  | LoadTask stage => resume_load stage r s
  | ConvertTask f fmt stage => resume_convert f fmt stage r s
  end.

(** The promise awaited by the [i]-th suspended handler settles. *)
Definition settle (i : nat) (r : Settled) (s : State) : State :=
  match pending s !! i with
  | None => s
  | Some t =>
      match resume t r s with
      | (Some t', s') => setPending (<[i := t']> (pending s')) s'
      | (None, s') => setPending (delete i (pending s')) s'
      end
  end.

(** What the JSX renders decides which handler a user action can reach:
    an element that is not rendered, or a [disabled] button, dispatches
    nothing. *)
Definition has_file (s : State) : bool :=
  match file s with Some _ => true | None => false end.

Definition has_artifact (s : State) : bool :=
  match convertedFile s with Some _ => true | None => false end.

Definition has_engine (s : State) : bool :=
  match ffmpegRef s with Some _ => true | None => false end.

Definition step (s : State) (e : Event) : State :=
  match e with
  | ClickInitialize =>
      (* {!isFFmpegLoaded && <button onClick={loadFFmpeg} disabled={isLoading}>} *)
      if negb (isFFmpegLoaded s) && negb (isLoading s) then loadFFmpeg s else s
  | ChooseFile selectedFile =>
      (* {isFFmpegLoaded && <input type="file" onChange={handleFileSelect}>} *)
      if isFFmpegLoaded s then handleFileSelect selectedFile s else s
  | SelectFormat value =>
      (* {file && <select onChange={(e) => setOutputFormat(e.target.value)}>} *)
      if has_file s then setOutputFormat value s else s
  | ClickConvert =>
      (* {file && isFFmpegLoaded &&
           <button onClick={convertVideo} disabled={isLoading}>} *)
      if has_file s && isFFmpegLoaded s && negb (isLoading s)
      then convertVideo s else s
  | ClickReset =>
      (* {file && <button onClick={resetConverter}>} *)
      if has_file s then resetConverter s else s
  | ClickDownload =>
      (* {convertedFile && <button onClick={downloadFile}>} *)
      if has_artifact s then downloadFile s else s
  | Settle i r => settle i r s
  | EngineLog message =>
      if has_engine s then on_log message s else s
  | EngineProgress ratio =>
      if has_engine s then on_progress ratio s else s
  end.

Definition run (s : State) (es : list Event) : State := foldl step s es.

Inductive reachable : State -> Prop :=
| reachable_initial : reachable initial
| reachable_step s e : reachable s -> reachable (step s e).

(** The progress values shown after each of the events [es]. *)
Fixpoint progress_trace (s : State) (es : list Event) : list Js.Number :=
  match es with
  | [] => []
  | e :: es' => progress (step s e) :: progress_trace (step s e) es'
  end.

Definition is_load (t : Task) : bool :=
  match t with LoadTask _ => true | ConvertTask _ _ _ => false end.

Definition is_convert (t : Task) : bool :=
  match t with LoadTask _ => false | ConvertTask _ _ _ => true end.

(** Handlers of each kind that are suspended at an await. *)
Definition loads_in_flight (s : State) : nat :=
  length (List.filter is_load (pending s)).

Definition conversions_in_flight (s : State) : nat :=
  length (List.filter is_convert (pending s)).

Definition exec_calls (s : State) : list (list string) :=
  omap (fun c => match c with CallExec _ args => Some args | _ => None end)
       (engineCalls s).

(** ** Predicates the properties are stated with *)

(** The documented argument shape
    [-i <input> [-c:v <codec>] [-c:a <codec>] [-preset <name>] <output>],
    written after the interface description (not after the code): each
    optional group is consumed at most once, in this order, and exactly one
    token, the output, is left. *)
Definition optional_group (flag : string) (args : list string) : list string :=
  match args with
  | f :: _ :: rest => if String.eqb f flag then rest else args
  | _ => args
  end.

Definition has_shape (input output : string) (args : list string) : bool :=
  match args with
  | i :: inp :: rest =>
      String.eqb i "-i" && String.eqb inp input &&
      match optional_group "-preset"
              (optional_group "-c:a" (optional_group "-c:v" rest)) with
      | [out] => String.eqb out output
      | _ => false
      end
  | _ => false
  end.

(** The flag groups of the array literal in [convertVideo]. *)
Definition default_flags : list string :=
  ["-c:v"; "libx264"; "-c:a"; "aac"; "-preset"; "medium"].

Definition occurrences (token : string) (args : list string) : nat :=
  length (filter (fun t => t = token) args).

Fixpoint has_dot (s : string) : bool :=
  match s with
  | EmptyString => false
  | String c rest => Ascii.eqb c "." || has_dot rest
  end.

Fixpoint ends_with (suffix s : string) : bool :=
  String.eqb s suffix ||
  match s with
  | EmptyString => false
  | String _ rest => ends_with suffix rest
  end.

Definition in_unit_interval (r : Js.Number) : Prop :=
  Js.le 0 r /\ Js.le r 1.

Definition percentage (p : Js.Number) : Prop :=
  Js.le 0 p /\ Js.le p 100.

(** At most one handler is suspended, and the in-flight flag and the
    loaded flag tell which one. *)
Definition one_job_at_a_time (s : State) : Prop :=
  match pending s with
  | [] => isLoading s = false
  | [LoadTask _] => isLoading s = true /\ isFFmpegLoaded s = false
  | [ConvertTask _ _ _] => isLoading s = true /\ isFFmpegLoaded s = true
  | _ => False
  end.

(** The exposed artifact's URL is registered and resolves to its blob. *)
Definition artifact_url_live (s : State) : Prop :=
  match convertedFile s with
  | None => True
  | Some c => blobUrls s !! url c = Some (blob c)
  end.

(** A conversion fails at a suspension point when the awaited promise is
    rejected, or when the engine reference is still empty at the first
    method call on it. *)
Definition fails_at (stage : ConvertStage) (r : Settled) (s : State) : Prop :=
  match r with
  | Rejected _ => True
  | Fulfilled _ =>
      match stage with
      | AwaitUtil => ffmpegRef s = None
      | _ => False
      end
  end.


(** ** Scenarios *)

Definition clip : File := {| file_name := "clip.mov"; file_bytes := [] |}.

Definition ok : Settled := Fulfilled [].

(** Initialise the engine; the three awaited promises are fulfilled. *)
Definition load_ok : list Event :=
  [ClickInitialize; Settle 0 ok; Settle 0 ok; Settle 0 ok].

(** Pick [clip.mov], choose [webm], convert up to the point where
    [ffmpeg.exec] has been called and is awaited. *)
Definition until_exec : list Event :=
  [ChooseFile (Some clip); SelectFormat "webm"; ClickConvert;
   Settle 0 ok; Settle 0 ok; Settle 0 ok].

(** [exec] and [readFile] are fulfilled. *)
Definition finish_ok : list Event := [Settle 0 ok; Settle 0 ok].

Definition converted : State :=
  run initial (load_ok ++ until_exec ++ finish_ok).

(** A conversion attempt that runs without other events in between: the
    click, [datas] fulfilled promises, then a rejection. *)
Definition failed_attempt (datas : list (list ascii)) (errorMsg : string)
  : list Event :=
  ClickConvert :: map (fun d => Settle 0 (Fulfilled d)) datas
    ++ [Settle 0 (Rejected errorMsg)].

(** Engine reports 0, 1/4, 1/2 and 1, and reports 1/2, 1/4 and 2. *)
Definition quarter_steps : list Js.Number :=
  [Js.Finite 0 0; Js.Finite 1 (-2); Js.Finite 1 (-1); Js.Finite 1 0].

Definition unruly_reports : list Js.Number :=
  [Js.Finite 1 (-1); Js.Finite 1 (-2); Js.Finite 2 0].




(** A second attempt after [converted], with an engine log line in
    between, up to the point where [exec] is awaited. *)
Definition second_attempt : list Event :=
  [ClickConvert; Settle 0 ok; EngineLog "frame=    1"; Settle 0 ok;
   Settle 0 ok].

(** ** Further scenarios and invariants *)

(** A load attempt that runs without other events in between: the click,
    [k] fulfilled promises, then a rejection. *)
Definition failed_load (k : nat) (errorMsg : string) : list Event :=
  ClickInitialize :: replicate k (Settle 0 ok)
    ++ [Settle 0 (Rejected errorMsg)].

(** A conversion that runs without other events in between and whose five
    promises are fulfilled: [fetched] is what [fetchFile] delivers and
    [output] what [readFile] delivers. *)
Definition successful_attempt (fetched output : list ascii) : list Event :=
  [ClickConvert; Settle 0 ok; Settle 0 (Fulfilled fetched);
   Settle 0 ok; Settle 0 ok; Settle 0 (Fulfilled output)].

Definition is_settle (e : Event) : bool :=
  match e with Settle _ _ => true | _ => false end.

(** The engine instance a suspended conversion holds in its frame. *)
Definition stage_engine (stage : ConvertStage) : option nat :=
  match stage with
  | AwaitUtil => None
  | AwaitFetchFile n | AwaitWriteFile n | AwaitExec n | AwaitReadFile n =>
      Some n
  end.

(** The loaded flag is only set with an instance in the reference; a load
    that awaits [load()] has constructed one; the instance in the frame of
    a suspended conversion is the one in the reference. *)
Definition engine_in_place (s : State) : Prop :=
  (isFFmpegLoaded s = true -> has_engine s = true)
  /\ match pending s with
     | [LoadTask AwaitEngineLoad] => has_engine s = true
     | [ConvertTask _ _ stage] =>
         forall n, stage_engine stage = Some n -> ffmpegRef s = Some n
     | _ => True
     end.

(** The registered blob URLs are [blob:0], ..., [blob:(size - 1)]. *)
Definition registry_numbered (s : State) : Prop :=
  forall u : string,
    is_Some (blobUrls s !! u) <->
    exists i : nat, (i < size (blobUrls s))%nat /\ u = "blob:" +:+ pretty i.

Definition is_construction (c : EngineCall) : bool :=
  match c with
  | CallNew _ | CallLoad _ _ _ _ => true
  | _ => false
  end.

(** The engine is loaded, [clip.mov] is selected and [webm] chosen. *)
Definition ready_with_clip : State :=
  run initial (load_ok ++ [ChooseFile (Some clip); SelectFormat "webm"]).

(** What a user, or the engine, may do while [readFile] is awaited. *)
Definition meanwhile : list Event :=
  [SelectFormat "avi";
   ChooseFile (Some {| file_name := "other.mkv"; file_bytes := [] |});
   ClickReset; ClickConvert; EngineProgress 1].

(** What must stand right before a call in the record of engine calls:
    an [exec] follows the [writeFile] of the input of its own command, a
    [readFile] follows the [exec] whose output it reads, a [load] follows
    the construction of its instance. *)
Definition may_follow (previous : option EngineCall) (c : EngineCall) : Prop :=
  match c with
  | CallExec n args =>
      exists f fmt data,
        previous = Some (CallWriteFile n (inputName f) data)
        /\ args = command f fmt
  | CallReadFile n path =>
      exists f fmt,
        previous = Some (CallExec n (command f fmt))
        /\ path = outputName fmt
  | CallLoad n _ _ _ => previous = Some (CallNew n)
  | CallNew _ | CallWriteFile _ _ _ => True
  end.

Definition in_job_order (calls : list EngineCall) : Prop :=
  forall k c,
    calls !! k = Some c ->
    may_follow (match k with O => None | S k' => calls !! k' end) c.

(** The call a suspended conversion has issued last. *)
Definition issued_last (t : Task) (calls : list EngineCall) : Prop :=
  match t with
  | ConvertTask f fmt (AwaitWriteFile n) =>
      exists data, last calls = Some (CallWriteFile n (inputName f) data)
  | ConvertTask f fmt (AwaitExec n) =>
      last calls = Some (CallExec n (command f fmt))
  | _ => True
  end.

Definition calls_follow_job (s : State) : Prop :=
  in_job_order (engineCalls s)
  /\ match pending s with
     | [t] => issued_last t (engineCalls s)
     | _ => True
     end.

(** * Properties *)

(** ** Sample evaluations *)

Example split_two_dots_example : Js.split "." "my.holiday.mov" = ["my"; "holiday"; "mov"].
Proof. reflexivity. Qed.

Example split_plain_example : Js.split "." "clip" = ["clip"].
Proof. reflexivity. Qed.

Example command_mp4_example :
  command {| file_name := "clip.mov"; file_bytes := [] |} "mp4" =
  ["-i"; "input.mov"; "-c:v"; "libx264"; "-c:a"; "aac"; "-preset"; "medium";
   "output.mp4";
   "-c:v"; "libx264"; "-c:a"; "aac"; "-preset"; "medium"; "output.mp4"].
Proof. reflexivity. Qed.

(** ** Strings *)

Section Split.
Variable sep : ascii.

Lemma split_nonempty (s : string) : Js.split sep s <> [].
Proof.
  destruct s as [|c rest]; simpl; [discriminate|].
  destruct (Ascii.eqb c sep); [discriminate|].
  destruct (Js.split sep rest); discriminate.
Qed.

(** Cutting at an occurrence of the separator cuts the pieces there. *)
Lemma split_app (a b : string) :
  Js.split sep (a +:+ String sep b) = Js.split sep a ++ Js.split sep b.
Proof.
  induction a as [|c a IH]; simpl.
  - rewrite Ascii.eqb_refl. reflexivity.
  - destruct (Ascii.eqb c sep).
    + rewrite IH. reflexivity.
    + rewrite IH. pose proof (split_nonempty a) as Hne.
      destruct (Js.split sep a) as [|p ps]; [contradiction|reflexivity].
Qed.
End Split.

Lemma split_no_dot (s : string) :
  has_dot s = false -> Js.split "." s = [s].
Proof.
  induction s as [|c s IH]; simpl; [reflexivity|].
  intros H. apply orb_false_iff in H as [Hc Hs].
  rewrite Hc, (IH Hs). reflexivity.
Qed.

Lemma pop_split_extension (stem ext : string) :
  has_dot ext = false ->
  Js.pop (Js.split "." (stem +:+ "." +:+ ext)) = Some ext.
Proof.
  intros H. unfold Js.pop.
  change ("." +:+ ext) with (String "." ext).
  rewrite split_app, (split_no_dot ext H). apply last_snoc.
Qed.

(** ** The input handle name *)

(** C9, as amended.  The input handle name is ["input."] followed by the
    text after the last dot of the file name; a file name without a dot
    is that text in full, so such a file gets ["input."] followed by its
    whole name and not a fixed default. *)
Theorem C9_input_name_from_last_piece (stem ext : string) (bytes : list ascii) :
  has_dot ext = false ->
  inputName {| file_name := stem +:+ "." +:+ ext; file_bytes := bytes |}
    = "input." +:+ ext
  /\ inputName {| file_name := ext; file_bytes := bytes |} = "input." +:+ ext.
Proof.
  intros H. unfold inputName. cbn [file_name]. split.
  - rewrite (pop_split_extension stem ext H). reflexivity.
  - rewrite (split_no_dot ext H). reflexivity.
Qed.

Lemma C9_input_name_witness :
  inputName {| file_name := "clip.mov"; file_bytes := [] |} = "input.mov"
  /\ inputName {| file_name := "mov"; file_bytes := [] |} = "input.mov".
Proof.
  apply (C9_input_name_from_last_piece "clip" "mov" []). reflexivity.
Defined.

(** C9, as stated, fails: two files without an extension get two different
    handle names, so no single default name serves them. *)
Lemma C9_no_default_handle :
  ~ exists default : string,
      forall f : File, has_dot (file_name f) = false -> inputName f = default.
Proof.
  intros [d Hd].
  pose proof (Hd {| file_name := "video"; file_bytes := [] |} eq_refl) as H1.
  pose proof (Hd {| file_name := "movie"; file_bytes := [] |} eq_refl) as H2.
  vm_compute in H1, H2. congruence.
Qed.

(** ** The command line *)

Lemma format_flags_cases (fmt : string) :
  format_flags fmt = ["-c:v"; "libx264"; "-c:a"; "aac"; "-preset"; "medium"]
  \/ format_flags fmt = ["-c:v"; "libvpx-vp9"; "-c:a"; "libopus"]
  \/ format_flags fmt = ["-c:v"; "libx264"; "-c:a"; "mp3"]
  \/ format_flags fmt = ["-c:v"; "libx264"; "-c:a"; "aac"].
Proof.
  unfold format_flags.
  repeat (match goal with |- context [if ?b then _ else _] => destruct b end);
    auto.
Qed.

Lemma input_name_not_flag (f : File) (flag : string) :
  inputName f = String "-" flag -> False.
Proof. unfold inputName. simpl. discriminate. Qed.

Lemma output_name_not_flag (fmt flag : string) :
  outputName fmt = String "-" flag -> False.
Proof. unfold outputName. simpl. discriminate. Qed.

Lemma command_pieces (f : File) (fmt : string) :
  command f fmt =
  ["-i"; inputName f] ++ default_flags ++ [outputName fmt]
    ++ format_flags fmt ++ [outputName fmt].
Proof. reflexivity. Qed.

Lemma occurrences_app (token : string) (l1 l2 : list string) :
  occurrences token (l1 ++ l2)
  = (occurrences token l1 + occurrences token l2)%nat.
Proof. unfold occurrences. rewrite filter_app, length_app. reflexivity. Qed.

Lemma occurrences_command (f : File) (fmt : string) (flag : string) :
  flag <> "i" ->
  occurrences (String "-" flag) (command f fmt) =
  (occurrences (String "-" flag) default_flags
   + occurrences (String "-" flag) (format_flags fmt))%nat.
Proof.
  intros Hflag. rewrite command_pieces, !occurrences_app.
  assert (occurrences (String "-" flag) ["-i"; inputName f] = 0%nat) as ->.
  { unfold occurrences.
    rewrite filter_cons_False by congruence.
    rewrite filter_cons_False
      by (intros H; exact (input_name_not_flag _ _ H)).
    reflexivity. }
  assert (occurrences (String "-" flag) [outputName fmt] = 0%nat) as ->.
  { unfold occurrences.
    rewrite filter_cons_False
      by (intros H; exact (output_name_not_flag _ _ H)).
    reflexivity. }
  lia.
Qed.

Lemma has_shape_command (f : File) (fmt input output : string) :
  has_shape input output (command f fmt) = false.
Proof.
  rewrite command_pieces. unfold has_shape, default_flags. cbn [app].
  destruct (format_flags_cases fmt) as [H|[H|[H|H]]]; rewrite H;
    cbn; apply andb_false_r.
Qed.

(** C1 fails on the code.  For every file and every format the argument
    list is the complete command of the array literal followed by a second
    set of codec flags and a second copy of the output name: [-c:v] and
    [-c:a] occur twice each, the output name sits at index 8 and again at
    the end, and the list never has the documented shape. *)
Theorem C1_command_repeats_flags_and_output (f : File) (fmt : string) :
  (forall input output, has_shape input output (command f fmt) = false)
  /\ occurrences "-c:v" (command f fmt) = 2%nat
  /\ occurrences "-c:a" (command f fmt) = 2%nat
  /\ command f fmt !! 8%nat = Some (outputName fmt)
  /\ last (command f fmt) = Some (outputName fmt)
  /\ (8 < pred (length (command f fmt)))%nat.
Proof.
  split; [intros; apply has_shape_command|].
  rewrite !occurrences_command by discriminate.
  rewrite command_pieces.
  destruct (format_flags_cases fmt) as [H|[H|[H|H]]]; rewrite H;
    repeat split; cbn; lia.
Qed.

(** ** Selecting a file *)

(** C4.  Selecting a file makes it the current one, clears the converted
    artifact and the error message and sets the progress to 0, whatever
    the state was. *)
Theorem C4_select_clears_job_state (s : State) (f : File) :
  file (handleFileSelect (Some f) s) = Some f
  /\ convertedFile (handleFileSelect (Some f) s) = None
  /\ error (handleFileSelect (Some f) s) = ""
  /\ progress (handleFileSelect (Some f) s) = 0
  /\ logs (handleFileSelect (Some f) s) = [].
Proof. repeat split. Qed.

(** The picker is rendered once the engine is loaded, and then the
    selection reaches the handler. *)
Lemma choose_file_dispatches (s : State) (f : File) :
  isFFmpegLoaded s = true ->
  step s (ChooseFile (Some f)) = handleFileSelect (Some f) s.
Proof. intros H. simpl. rewrite H. reflexivity. Qed.

(** ** The converted artifact *)

Lemma convert_success_artifact (f : File) (fmt : string) (data : list ascii)
    (s : State) :
  convertedFile (convert_success f fmt data s) =
  Some {| blob := {| blob_parts := data; blob_type := "video/" +:+ fmt |};
          name := Js.interpolate (Js.index (Js.split "." (file_name f)) 0)
                  +:+ " .  " +:+ fmt;
          url := fresh_url s |}.
Proof. reflexivity. Qed.

(** C5 fails on the code in its second half.  Converting [clip.mov] to
    [webm] yields a blob of type [video/webm], but the suggested name is
    [clip .  webm], with a space before the dot and two after it; it does
    not end in [.webm]. *)
Theorem C5_artifact_name_is_spaced :
  convertedFile converted =
    Some {| blob := {| blob_parts := []; blob_type := "video/webm" |};
            name := "clip .  webm";
            url := "blob:0" |}
  /\ ends_with ".webm" "clip .  webm" = false
  /\ converted_name clip "webm" <> "clip.webm".
Proof.
  split; [vm_compute; reflexivity|].
  split; [vm_compute; reflexivity|].
  vm_compute. discriminate.
Qed.

(** ** One job at a time *)

Lemma one_job_initial : one_job_at_a_time initial.
Proof. reflexivity. Qed.

Lemma one_job_step (s : State) (e : Event) :
  one_job_at_a_time s -> one_job_at_a_time (step s e).
Proof.
  destruct s as [f fmt il ld pr cf er lg ref pd calls urls dl].
  unfold one_job_at_a_time. cbn [pending isLoading isFFmpegLoaded].
  destruct pd as [|t [|t' pd]]; [| |destruct t; contradiction].
  - (* nothing suspended *)
    intros ->.
    destruct e as [|sel|v| | | |i r|m|q];
      try (destruct sel); destruct ld, f, cf, ref; cbn; auto;
      unfold settle; destruct i; cbn; auto.
  - (* one handler suspended *)
    intros H.
    destruct e as [|sel|v| | | |i r|m|q];
      try (destruct sel); try (destruct i as [|[|i]]);
      destruct t as [st|tf tfmt st]; destruct H as [-> ->];
      try (destruct st); try (destruct r); destruct f, cf, ref;
      cbn; unfold settle; cbn; auto.
Qed.

Lemma reachable_run (es : list Event) : reachable (run initial es).
Proof.
  induction es as [|e es IH] using rev_ind.
  - apply reachable_initial.
  - unfold run in *. rewrite foldl_snoc. apply reachable_step, IH.
Qed.

Lemma reachable_one_job (s : State) : reachable s -> one_job_at_a_time s.
Proof.
  induction 1 as [|s e _ IH]; [apply one_job_initial|].
  apply one_job_step, IH.
Qed.

Lemma in_flight_bounds (s : State) :
  one_job_at_a_time s ->
  (loads_in_flight s <= 1)%nat /\ (conversions_in_flight s <= 1)%nat
  /\ ((0 < loads_in_flight s + conversions_in_flight s)%nat ->
      isLoading s = true).
Proof.
  unfold one_job_at_a_time, loads_in_flight, conversions_in_flight.
  destruct (pending s) as [|[st|f fmt st] [|t' pd]]; cbn;
    try contradiction; intros H; repeat split; intuition lia.
Qed.

Lemma disabled_initialize (s : State) :
  isLoading s = true -> step s ClickInitialize = s.
Proof. intros H. cbn. rewrite H, andb_false_r. reflexivity. Qed.

Lemma disabled_convert (s : State) :
  isLoading s = true -> step s ClickConvert = s.
Proof. intros H. cbn. rewrite H, andb_false_r. reflexivity. Qed.

(** C6.  In every reachable state: once the engine is loaded, [loadFFmpeg]
    returns the state as it is (no cell changes, no engine is constructed,
    no handler is suspended), and the button that calls it is not even
    rendered; while a load is in flight the button is disabled, a click
    changes nothing, and never more than one load is in flight. *)
Theorem C6_load_is_idempotent (s : State) :
  reachable s ->
  (isFFmpegLoaded s = true ->
   loadFFmpeg s = s /\ step s ClickInitialize = s)
  /\ ((0 < loads_in_flight s)%nat -> step s ClickInitialize = s)
  /\ (loads_in_flight s <= 1)%nat.
Proof.
  intros Hr. apply reachable_one_job, in_flight_bounds in Hr
    as (Hload & _ & Hbusy).
  split; [|split; [|exact Hload]].
  - intros H. unfold loadFFmpeg. cbn. rewrite H. split; reflexivity.
  - intros H. apply disabled_initialize, Hbusy. lia.
Qed.

Lemma C6_load_witness :
  step (run initial [ClickInitialize]) ClickInitialize
    = run initial [ClickInitialize]
  /\ loadFFmpeg (run initial load_ok) = run initial load_ok.
Proof.
  split.
  - refine (proj1 (proj2
      (C6_load_is_idempotent (run initial [ClickInitialize]) _)) _).
    + apply reachable_run.
    + vm_compute. lia.
  - refine (proj1 (proj1
      (C6_load_is_idempotent (run initial load_ok) _) _)).
    + apply reachable_run.
    + vm_compute. reflexivity.
Defined.

(** C8.  In every reachable state with a conversion in flight, that
    conversion is the only one, and a click on the convert button is
    ignored: the state, and with it the list of suspended handlers and the
    calls received by the engine, stays as it is. *)
Theorem C8_second_convert_is_ignored (s : State) :
  reachable s ->
  (0 < conversions_in_flight s)%nat ->
  step s ClickConvert = s
  /\ conversions_in_flight s = 1%nat
  /\ exec_calls (step s ClickConvert) = exec_calls s.
Proof.
  intros Hr Hc. apply reachable_one_job, in_flight_bounds in Hr
    as (_ & Hconv & Hbusy).
  assert (step s ClickConvert = s) as Hs
    by (apply disabled_convert, Hbusy; lia).
  rewrite Hs. repeat split. lia.
Qed.

Lemma C8_convert_witness :
  step (run initial (load_ok ++ until_exec)) ClickConvert
    = run initial (load_ok ++ until_exec)
  /\ conversions_in_flight (run initial (load_ok ++ until_exec)) = 1%nat
  /\ exec_calls (step (run initial (load_ok ++ until_exec)) ClickConvert)
     = exec_calls (run initial (load_ok ++ until_exec)).
Proof.
  refine (C8_second_convert_is_ignored
            (run initial (load_ok ++ until_exec)) _ _).
  - apply reachable_run.
  - vm_compute. lia.
Defined.

(** No reachable state has two conversions in flight. *)
Lemma never_two_conversions (s : State) :
  reachable s -> (conversions_in_flight s <= 1)%nat.
Proof. intros Hr. apply reachable_one_job, in_flight_bounds in Hr. tauto. Qed.

(** ** Failure of a conversion *)


(** An attempt without other events in between, at whichever of its five
    promises it fails: the artifact cell and the registry are what they
    were before the click. *)
Lemma failed_attempt_uninterrupted (s : State)
    (datas : list (list ascii)) (errorMsg : string) :
  pending s = [] ->
  isLoading s = false ->
  has_file s = true ->
  isFFmpegLoaded s = true ->
  has_engine s = true ->
  (length datas < 5)%nat ->
  let s' := run s (failed_attempt datas errorMsg) in
  convertedFile s' = convertedFile s
  /\ blobUrls s' = blobUrls s
  /\ file s' = file s
  /\ pending s' = []
  /\ isLoading s' = false
  /\ progress s' = 0
  /\ isFFmpegLoaded s' = true
  /\ error s' = "Failed to load FFmpeg: " +:+ errorMsg
  /\ logs s' = logs s ++ ["Starting conversion to " +:+ outputFormat s +:+ "...";
                          "Error loading FFmpeg: " +:+ errorMsg].
Proof.
  destruct s as [f fmt il ld pr cf er lg ref pd calls urls dl].
  cbn [pending isLoading isFFmpegLoaded has_file has_engine file ffmpegRef
       logs outputFormat].
  intros -> -> Hf -> He Hlen.
  destruct f as [f|]; [clear Hf|discriminate].
  destruct ref as [n|]; [clear He|discriminate].
  destruct datas as [|d0 [|d1 [|d2 [|d3 [|d4 [|d5 datas]]]]]];
    cbn in Hlen; try lia; clear Hlen;
    vm_compute; repeat split;
    symmetry; exact (app_assoc lg [_] [_]).
Qed.





(** When the user resets during the attempt, the artifact of the earlier
    conversion is gone after the failure. *)
Example reset_during_failed_attempt :
  has_artifact converted = true
  /\ convertedFile
       (run converted
            (second_attempt ++ [ClickReset; Settle 0 (Rejected "exec failed")]))
     = None.
Proof. split; vm_compute; reflexivity. Qed.


(** ** Blob URLs *)

Lemma resume_url_live (t : Task) (r : Settled) (s : State) :
  artifact_url_live s -> artifact_url_live (resume t r s).2.
Proof.
  unfold artifact_url_live.
  destruct t as [st|f fmt st], r as [data|msg], st;
    try (cbn; destruct (ffmpegRef s); cbn; intros H; exact H).
  intros _. cbn. apply lookup_insert_eq.
Qed.

Lemma settle_url_live (i : nat) (r : Settled) (s : State) :
  artifact_url_live s -> artifact_url_live (settle i r s).
Proof.
  intros H. unfold settle. destruct (pending s !! i) as [t|]; [|exact H].
  pose proof (resume_url_live t r s H) as H'.
  destruct (resume t r s) as [[t'|] s']; exact H'.
Qed.

Lemma step_url_live (s : State) (e : Event) :
  artifact_url_live s -> artifact_url_live (step s e).
Proof.
  intros H. destruct e as [|sel|v| | | |i r|m|q]; cbn [step];
    try apply settle_url_live; try exact H;
    repeat match goal with
      | |- context [if ?b then _ else _] => destruct b
      end; try exact H.
  - unfold loadFFmpeg. destruct (isFFmpegLoaded s); exact H.
  - destruct sel; [exact I|exact H].
  - unfold convertVideo. destruct (file s); [|exact H].
    destruct (negb (isFFmpegLoaded s)); exact H.
  - exact I.
  - unfold downloadFile, artifact_url_live in *.
    destruct (convertedFile s) eqn:E; cbn; rewrite ?E; exact H.
Qed.

Lemma reachable_url_live (s : State) : reachable s -> artifact_url_live s.
Proof.
  induction 1 as [|s e _ IH]; [exact I|]. apply step_url_live, IH.
Qed.

(** Registered blob URLs stay registered: an event either leaves the
    registry alone or adds an entry to it. *)
Lemma resume_registry (t : Task) (r : Settled) (s : State) :
  blobUrls (resume t r s).2 = blobUrls s
  \/ exists u b, blobUrls (resume t r s).2 = <[u := b]> (blobUrls s).
Proof.
  destruct t as [st|f fmt st], r as [data|msg], st;
    try (left; cbn; destruct (ffmpegRef s); reflexivity).
  right. eexists _, _. reflexivity.
Qed.

Lemma step_registry (s : State) (e : Event) :
  blobUrls (step s e) = blobUrls s
  \/ exists u b, blobUrls (step s e) = <[u := b]> (blobUrls s).
Proof.
  destruct e as [|sel|v| | | |i r|m|q]; cbn [step];
    try (left;
         repeat match goal with
           | |- context [if ?b then _ else _] => destruct b
           end; reflexivity).
  - left. unfold loadFFmpeg.
    destruct (negb (isFFmpegLoaded s) && negb (isLoading s));
      destruct (isFFmpegLoaded s); reflexivity.
  - left. destruct (isFFmpegLoaded s), sel; reflexivity.
  - left. unfold convertVideo.
    destruct (has_file s && isFFmpegLoaded s && negb (isLoading s));
      destruct (file s), (negb (isFFmpegLoaded s)); reflexivity.
  - left. unfold downloadFile.
    destruct (has_artifact s), (convertedFile s); reflexivity.
  - unfold settle. destruct (pending s !! i) as [t|]; [|left; reflexivity].
    pose proof (resume_registry t r s) as H.
    destruct (resume t r s) as [[t'|] s']; exact H.
Qed.

Lemma blob_urls_never_released (s : State) (e : Event) :
  dom (blobUrls s) ⊆ dom (blobUrls (step s e)).
Proof.
  destruct (step_registry s e) as [->|(u & b & ->)]; [reflexivity|].
  rewrite dom_insert_L. set_solver.
Qed.

(** C3, as amended.  When an artifact is exposed, its blob URL is
    registered; selecting a new file or resetting discards the artifact
    (the cell becomes null) but does not release the URL, which stays
    registered with the same blob. *)
Theorem C3_discarded_artifact_keeps_its_url (s : State) (c : ConvertedFile) :
  reachable s ->
  convertedFile s = Some c ->
  blobUrls s !! url c = Some (blob c)
  /\ (forall f : File,
        convertedFile (handleFileSelect (Some f) s) = None
        /\ blobUrls (handleFileSelect (Some f) s) !! url c = Some (blob c))
  /\ convertedFile (resetConverter s) = None
  /\ blobUrls (resetConverter s) !! url c = Some (blob c).
Proof.
  intros Hr Hc. apply reachable_url_live in Hr.
  unfold artifact_url_live in Hr. rewrite Hc in Hr.
  repeat split; exact Hr.
Qed.

Lemma C3_discarded_artifact_witness :
  blobUrls converted !! "blob:0"
    = Some {| blob_parts := []; blob_type := "video/webm" |}
  /\ (forall f : File,
        convertedFile (handleFileSelect (Some f) converted) = None
        /\ blobUrls (handleFileSelect (Some f) converted) !! "blob:0"
           = Some {| blob_parts := []; blob_type := "video/webm" |})
  /\ convertedFile (resetConverter converted) = None
  /\ blobUrls (resetConverter converted) !! "blob:0"
     = Some {| blob_parts := []; blob_type := "video/webm" |}.
Proof.
  refine (C3_discarded_artifact_keeps_its_url converted
            {| blob := {| blob_parts := []; blob_type := "video/webm" |};
               name := "clip .  webm";
               url := "blob:0" |} _ _).
  - apply reachable_run.
  - vm_compute. reflexivity.
Defined.

(** C3, as stated, fails: after the conversion of [clip.mov] the artifact's
    URL [blob:0] is registered, and it is still registered after the reset
    button, and after the choice of another file, has discarded the
    artifact. *)
Lemma C3_url_survives_reset_and_reselect :
  (url <$> convertedFile converted) = Some "blob:0"
  /\ convertedFile (step converted ClickReset) = None
  /\ is_Some (blobUrls (step converted ClickReset) !! "blob:0")
  /\ convertedFile (step converted (ChooseFile (Some clip))) = None
  /\ is_Some (blobUrls (step converted (ChooseFile (Some clip))) !! "blob:0").
Proof.
  split; [vm_compute; reflexivity|].
  split; [vm_compute; reflexivity|].
  split; [vm_compute; eexists; reflexivity|].
  split; [vm_compute; reflexivity|].
  vm_compute; eexists; reflexivity.
Qed.

(** ** Progress *)

(** *** Rounding to a double *)

Lemma pow2_pos (t : Z) : 0 <= t -> 0 < 2 ^ t.
Proof. intros H. apply Z.pow_pos_nonneg; lia. Qed.

Lemma half_double (t : Z) : 0 < t -> 2 ^ t = 2 * 2 ^ (t - 1).
Proof.
  intros H. replace t with (1 + (t - 1)) at 1 by lia.
  rewrite Z.pow_add_r by lia. reflexivity.
Qed.

Lemma round_even_between (N t : Z) :
  0 < t -> N / 2 ^ t <= Js.round_even N t <= N / 2 ^ t + 1.
Proof.
  intros Ht. unfold Js.round_even.
  destruct (_ <? _); [lia|]. destruct (_ <? _); [lia|].
  destruct (Z.even _); lia.
Qed.

Lemma round_even_exact (N t : Z) :
  0 < t -> N mod 2 ^ t = 0 -> Js.round_even N t = N / 2 ^ t.
Proof.
  intros Ht Hm. unfold Js.round_even. rewrite Hm.
  pose proof (pow2_pos (t - 1)).
  destruct (0 <? 2 ^ (t - 1)) eqn:E; [reflexivity|]. apply Z.ltb_ge in E. lia.
Qed.

Lemma round_even_mono (N1 N2 t : Z) :
  0 < t -> N1 <= N2 -> Js.round_even N1 t <= Js.round_even N2 t.
Proof.
  intros Ht Hle.
  pose proof (pow2_pos t ltac:(lia)) as Hp.
  pose proof (Z.div_le_mono N1 N2 (2 ^ t) Hp Hle) as Hq.
  destruct (Z.eq_dec (N1 / 2 ^ t) (N2 / 2 ^ t)) as [Heq|Hne].
  - pose proof (Z.div_mod N1 (2 ^ t) ltac:(lia)) as H1.
    pose proof (Z.div_mod N2 (2 ^ t) ltac:(lia)) as H2.
    assert (N1 mod 2 ^ t <= N2 mod 2 ^ t) as Hr by (rewrite Heq in H1; lia).
    unfold Js.round_even. rewrite Heq.
    destruct (N1 mod 2 ^ t <? 2 ^ (t - 1)) eqn:A1;
      destruct (2 ^ (t - 1) <? N1 mod 2 ^ t) eqn:B1;
      destruct (N2 mod 2 ^ t <? 2 ^ (t - 1)) eqn:A2;
      destruct (2 ^ (t - 1) <? N2 mod 2 ^ t) eqn:B2;
      destruct (Z.even (N2 / 2 ^ t)); lia.
  - pose proof (round_even_between N1 t Ht).
    pose proof (round_even_between N2 t Ht). lia.
Qed.

Lemma round_to_mono (N1 N2 t : Z) :
  N1 <= N2 -> Js.round_to N1 t <= Js.round_to N2 t.
Proof.
  intros Hle. unfold Js.round_to. destruct (t <=? 0) eqn:E; [exact Hle|].
  apply Z.leb_gt in E.
  apply Z.mul_le_mono_nonneg_r; [pose proof (pow2_pos t); lia|].
  apply round_even_mono; assumption.
Qed.

Lemma round_to_fix (N t : Z) :
  t <= 0 \/ N mod 2 ^ t = 0 -> Js.round_to N t = N.
Proof.
  intros H. unfold Js.round_to. destruct (t <=? 0) eqn:E; [reflexivity|].
  apply Z.leb_gt in E. destruct H as [H|H]; [lia|].
  rewrite (round_even_exact N t E H).
  pose proof (pow2_pos t ltac:(lia)).
  pose proof (Z.div_mod N (2 ^ t) ltac:(lia)). lia.
Qed.

Lemma pow2_divides (a t : Z) : 0 <= t <= a -> 2 ^ a mod 2 ^ t = 0.
Proof.
  intros H. replace a with ((a - t) + t) by lia.
  rewrite Z.pow_add_r by lia. apply Z.mod_mul.
  pose proof (pow2_pos t). lia.
Qed.

Lemma round_to_nonneg (N t : Z) : 0 <= N -> 0 <= Js.round_to N t.
Proof.
  intros H. unfold Js.round_to. destruct (t <=? 0) eqn:E; [exact H|].
  apply Z.leb_gt in E. pose proof (pow2_pos t ltac:(lia)).
  pose proof (round_even_between N t E).
  pose proof (Z.div_pos N (2 ^ t) H ltac:(lia)). nia.
Qed.

Lemma round53_mono (N1 N2 E : Z) :
  0 <= N1 <= N2 -> Js.round53 N1 E <= Js.round53 N2 E.
Proof.
  intros [H0 Hle]. unfold Js.round53.
  pose proof (Z.log2_le_mono N1 N2 Hle) as Hlog.
  destruct (Z.eq_dec (Js.grid N1 E) (Js.grid N2 E)) as [Heq|Hne].
  - rewrite Heq. apply round_to_mono, Hle.
  - assert (Js.grid N1 E < Js.grid N2 E) as Hlt by (unfold Js.grid in *; lia).
    assert (Z.log2 N1 < Z.log2 N2) as Hll by (unfold Js.grid in *; lia).
    assert (0 < N2) as Hpos.
    { destruct (Z.eq_dec N2 0) as [->|]; [|lia].
      assert (N1 = 0) by lia. subst. lia. }
    pose proof (Z.log2_nonneg N1) as Hn1.
    destruct (Z.log2_spec N2 Hpos) as [HG _].
    assert (N1 <= 2 ^ Z.log2 N2) as HN1.
    { destruct (Z.eq_dec N1 0) as [->|];
        [pose proof (pow2_pos (Z.log2 N2)); lia|].
      destruct (Z.log2_spec N1 ltac:(lia)) as [_ Hu].
      assert (2 ^ Z.succ (Z.log2 N1) <= 2 ^ Z.log2 N2)
        by (apply Z.pow_le_mono_r; lia).
      lia. }
    etransitivity; [apply (round_to_mono _ _ _ HN1)|].
    rewrite round_to_fix.
    + rewrite <- (round_to_fix (2 ^ Z.log2 N2) (Js.grid N2 E)).
      * apply round_to_mono, HG.
      * destruct (Z_le_gt_dec (Js.grid N2 E) 0); [left; lia|right].
        apply pow2_divides. unfold Js.grid in *. lia.
    + destruct (Z_le_gt_dec (Js.grid N1 E) 0); [left; lia|right].
      apply pow2_divides. unfold Js.grid in *. lia.
Qed.

Lemma round_even_rescale (N t j : Z) :
  0 < t -> 0 <= j -> Js.round_even (N * 2 ^ j) (t + j) = Js.round_even N t.
Proof.
  intros Ht Hj. unfold Js.round_even.
  pose proof (pow2_pos t ltac:(lia)) as Hpt.
  pose proof (pow2_pos j Hj) as Hpj.
  pose proof (pow2_pos (t - 1) ltac:(lia)) as Hph.
  rewrite (Z.pow_add_r 2 t j) by lia.
  rewrite Z.div_mul_cancel_r by lia.
  rewrite Z.mul_mod_distr_r by lia.
  replace (t + j - 1) with ((t - 1) + j) by lia.
  rewrite (Z.pow_add_r 2 (t - 1) j) by lia.
  set (r := N mod 2 ^ t). set (h := 2 ^ (t - 1)). set (P := 2 ^ j) in *.
  assert ((r * P <? h * P) = (r <? h)) as ->.
  { destruct (Z.ltb_spec r h), (Z.ltb_spec (r * P) (h * P)); try reflexivity; nia. }
  assert ((h * P <? r * P) = (h <? r)) as ->.
  { destruct (Z.ltb_spec h r), (Z.ltb_spec (h * P) (r * P)); try reflexivity; nia. }
  reflexivity.
Qed.

Lemma round_to_rescale (N t j : Z) :
  0 <= j -> Js.round_to (N * 2 ^ j) (t + j) = Js.round_to N t * 2 ^ j.
Proof.
  intros Hj. destruct (Z_le_gt_dec t 0) as [Ht|Ht].
  - rewrite (round_to_fix N t) by (left; exact Ht).
    apply round_to_fix.
    destruct (Z_le_gt_dec (t + j) 0); [left; lia|right].
    replace j with ((j - (t + j)) + (t + j)) at 1 by lia.
    rewrite Z.pow_add_r by lia. rewrite Z.mul_assoc. apply Z.mod_mul.
    pose proof (pow2_pos (t + j)). lia.
  - unfold Js.round_to.
    destruct (Z.leb_spec (t + j) 0); [lia|].
    destruct (Z.leb_spec t 0); [lia|].
    rewrite round_even_rescale by lia.
    rewrite Z.pow_add_r by lia. ring.
Qed.

Lemma round_to_zero (t : Z) : Js.round_to 0 t = 0.
Proof.
  apply round_to_fix. destruct (Z_le_gt_dec t 0); [left; lia|right].
  apply Z.mod_0_l. pose proof (pow2_pos t). lia.
Qed.

Lemma round53_rescale (N E j : Z) :
  0 <= N -> 0 <= j ->
  Js.round53 (N * 2 ^ j) (E - j) = Js.round53 N E * 2 ^ j.
Proof.
  intros HN Hj. unfold Js.round53.
  destruct (Z.eq_dec N 0) as [->|Hne].
  - rewrite Z.mul_0_l, !round_to_zero. reflexivity.
  - assert (Js.grid (N * 2 ^ j) (E - j) = Js.grid N E + j) as ->.
    { unfold Js.grid. rewrite Z.log2_mul_pow2 by lia. lia. }
    apply round_to_rescale, Hj.
Qed.

Lemma nearest_integer_rescale (F E j : Z) :
  0 <= j -> Js.nearest_integer (F * 2 ^ j) (E - j) = Js.nearest_integer F E.
Proof.
  intros Hj. unfold Js.nearest_integer.
  pose proof (pow2_pos j Hj) as Hpj.
  destruct (Z.leb_spec 0 (E - j)) as [H1|H1];
    destruct (Z.leb_spec 0 E) as [H2|H2]; try lia.
  - replace E with ((E - j) + j) at 2 by lia.
    rewrite Z.pow_add_r by lia. ring.
  - (* E >= 0 > E - j *)
    pose proof (pow2_pos (j - E - 1) ltac:(lia)) as Hh.
    replace (F * 2 ^ j) with (F * 2 ^ E * 2 ^ (- (E - j))).
    2:{ rewrite <- Z.mul_assoc, <- Z.pow_add_r by lia. f_equal. f_equal. lia. }
    rewrite Z.div_add_l by (pose proof (pow2_pos (- (E - j))); lia).
    rewrite Z.div_small; [lia|].
    split; [lia|]. rewrite (half_double (- (E - j))) by lia.
    replace (- (E - j) - 1) with (j - E - 1) by lia. lia.
  - replace (- (E - j) - 1) with ((- E - 1) + j) by lia.
    replace (- (E - j)) with (- E + j) by lia.
    rewrite !Z.pow_add_r by lia.
    rewrite <- Z.mul_add_distr_r.
    apply Z.div_mul_cancel_r; [pose proof (pow2_pos (- E)); lia|lia].
Qed.

Lemma nearest_integer_mono (F1 F2 E : Z) :
  F1 <= F2 -> Js.nearest_integer F1 E <= Js.nearest_integer F2 E.
Proof.
  intros H. unfold Js.nearest_integer. destruct (Z.leb_spec 0 E).
  - apply Z.mul_le_mono_nonneg_r; [pose proof (pow2_pos E); lia|exact H].
  - apply Z.div_le_mono; [apply pow2_pos; lia|lia].
Qed.

Lemma overflows_rescale (F E j : Z) :
  0 <= j -> Js.overflows (F * 2 ^ j) (E - j) = Js.overflows F E.
Proof.
  intros Hj. unfold Js.overflows.
  pose proof (pow2_pos j Hj) as Hpj.
  destruct (Z.leb_spec 0 (E - j)) as [H1|H1];
    destruct (Z.leb_spec 0 E) as [H2|H2]; try lia.
  - replace E with ((E - j) + j) at 2 by lia.
    rewrite Z.pow_add_r by lia. f_equal. ring.
  - pose proof (pow2_pos E H2) as HpE.
    pose proof (pow2_pos (1024 - (E - j)) ltac:(lia)) as HpA.
    assert (2 ^ (1024 - (E - j)) * 2 ^ E = 2 ^ 1024 * 2 ^ j) as HA.
    { rewrite <- !Z.pow_add_r by lia. f_equal. lia. }
    set (A := 2 ^ (1024 - (E - j))) in *. set (P := 2 ^ E) in *.
    set (Q := 2 ^ j) in *. set (T := 2 ^ 1024) in *.
    destruct (Z.leb_spec A (F * Q)), (Z.leb_spec T (F * P));
      try reflexivity; exfalso; nia.
  - replace (1024 - (E - j)) with ((1024 - E) + j) by lia.
    rewrite Z.pow_add_r by lia.
    destruct (Z.leb_spec (2 ^ (1024 - E) * 2 ^ j) (F * 2 ^ j)),
             (Z.leb_spec (2 ^ (1024 - E)) F); try reflexivity; nia.
Qed.

Lemma round53_zero (E : Z) : Js.round53 0 E = 0.
Proof. unfold Js.round53. apply round_to_zero. Qed.

Lemma round53_nonneg (N E : Z) : 0 <= N -> 0 <= Js.round53 N E.
Proof. intros H. unfold Js.round53. apply round_to_nonneg, H. Qed.

Lemma round53_hundred (c : Z) :
  c <= 0 -> Js.round53 (100 * 2 ^ (- c)) c = 100 * 2 ^ (- c).
Proof.
  intros Hc. unfold Js.round53. apply round_to_fix.
  assert (Js.grid (100 * 2 ^ (- c)) c = - c - 46) as ->.
  { unfold Js.grid. rewrite Z.log2_mul_pow2 by lia.
    change (Z.log2 100) with 6. lia. }
  destruct (Z_le_gt_dec (- c - 46) 0); [left; lia|right].
  assert (2 ^ (- c) = 2 ^ 46 * 2 ^ (- c - 46)) as ->
    by (rewrite <- Z.pow_add_r by lia; f_equal; lia).
  rewrite Z.mul_assoc. apply Z.mod_mul.
  pose proof (pow2_pos (- c - 46)). lia.
Qed.

Lemma nearest_integer_zero (c : Z) : Js.nearest_integer 0 c = 0.
Proof.
  unfold Js.nearest_integer. destruct (Z.leb_spec 0 c); [lia|].
  apply Z.div_small. split; [pose proof (pow2_pos (- c - 1)); lia|].
  rewrite (half_double (- c)) by lia. pose proof (pow2_pos (- c - 1)). lia.
Qed.

Lemma nearest_integer_whole (k c : Z) :
  c <= 0 -> Js.nearest_integer (k * 2 ^ (- c)) c = k.
Proof.
  intros Hc. unfold Js.nearest_integer. destruct (Z.leb_spec 0 c).
  - assert (c = 0) as -> by lia. cbn. lia.
  - rewrite Z.div_add_l by (pose proof (pow2_pos (- c)); lia).
    rewrite Z.div_small; [lia|].
    split; [pose proof (pow2_pos (- c - 1)); lia|].
    rewrite (half_double (- c)) by lia. pose proof (pow2_pos (- c - 1)). lia.
Qed.

(** The percentage shown for a ratio [m * 2^e] between 0 and 1, computed
    on the finer Js.grid [2^c]. *)
Lemma unit_percent (m e c : Z) :
  0 <= m -> c <= e -> c <= 0 ->
  m * 2 ^ (e - c) <= 2 ^ (- c) ->
  Js.Math_round (Js.times (Js.Finite m e) 100)
    = Js.of_Z (Js.nearest_integer (Js.round53 (m * 2 ^ (e - c) * 100) c) c)
  /\ 0 <= Js.nearest_integer (Js.round53 (m * 2 ^ (e - c) * 100) c) c <= 100.
Proof.
  intros Hm Hce Hc Hle.
  pose proof (pow2_pos (e - c) ltac:(lia)) as Hpj.
  pose proof (pow2_pos (- c) ltac:(lia)) as Hpc.
  assert (Js.round53 (m * 2 ^ (e - c) * 100) c
          = Js.round53 (m * 100) e * 2 ^ (e - c)) as HG.
  { replace (m * 2 ^ (e - c) * 100) with (m * 100 * 2 ^ (e - c)) by ring.
    replace c with (e - (e - c)) at 2 by lia.
    apply round53_rescale; lia. }
  assert (0 <= Js.round53 (m * 2 ^ (e - c) * 100) c <= 100 * 2 ^ (- c))
    as [HG0 HGT].
  { split; [apply round53_nonneg; nia|].
    rewrite <- (round53_hundred c Hc). apply round53_mono. nia. }
  assert (Js.overflows (Js.round53 (m * 100) e) e = false) as Hov.
  { replace e with (c + (e - c)) at 2 by lia.
    replace (c + (e - c)) with (c - - (e - c)) by lia.
    rewrite <- (overflows_rescale _ (c - - (e - c)) (e - c)) by lia.
    replace (c - - (e - c) - (e - c)) with c by lia.
    rewrite <- HG. unfold Js.overflows.
    destruct (Z.leb_spec 0 c).
    - assert (c = 0) as -> by lia. cbn [Z.opp] in *.
      apply Z.leb_gt. change (2 ^ 0) with 1 in *.
      assert (100 < 2 ^ 1024) by (apply Z.ltb_lt; vm_compute; reflexivity).
      lia.
    - apply Z.leb_gt.
      replace (1024 - c) with (1024 + - c) by lia.
      rewrite Z.pow_add_r by lia.
      assert (100 < 2 ^ 1024) by (apply Z.ltb_lt; vm_compute; reflexivity).
      nia. }
  split.
  - unfold Js.times, Js.of_Z.
    rewrite Z.add_0_r, Z.abs_eq by lia. rewrite Hov.
    assert (Z.sgn (m * 100) * Js.round53 (m * 100) e = Js.round53 (m * 100) e)
      as ->.
    { destruct (Z.eq_dec m 0) as [->|]; [cbn; rewrite round53_zero; reflexivity|].
      rewrite Z.sgn_pos by lia. lia. }
    cbn [Js.Math_round]. unfold Js.of_Z. f_equal.
    rewrite HG.
    replace c with (e - (e - c)) at 2 by lia.
    rewrite nearest_integer_rescale by lia. reflexivity.
  - split.
    + rewrite <- (nearest_integer_zero c). apply nearest_integer_mono, HG0.
    + rewrite <- (nearest_integer_whole 100 c Hc) at 2.
      apply nearest_integer_mono, HGT.
Qed.

Lemma pow2_split (e c c' : Z) :
  c' <= c -> c <= e -> 2 ^ (e - c') = 2 ^ (e - c) * 2 ^ (c - c').
Proof.
  intros H1 H2. rewrite <- Z.pow_add_r by lia. f_equal. lia.
Qed.

Lemma unit_interval_finite (r : Js.Number) :
  in_unit_interval r ->
  exists m e, r = Js.Finite m e /\ 0 <= m
              /\ forall c, c <= e -> c <= 0 -> m * 2 ^ (e - c) <= 2 ^ (- c).
Proof.
  intros [H0 H1].
  destruct r as [m e| | |]; cbv beta iota delta [Js.le Js.of_Z] in H0, H1;
    try contradiction.
  exists m, e. split; [reflexivity|].
  assert (0 <= m) as Hm.
  { pose proof (pow2_pos (e - Z.min 0 e) ltac:(lia)). nia. }
  split; [exact Hm|]. intros c Hce Hc.
  rewrite (pow2_split e (Z.min e 0) c) by lia.
  replace (- c) with (0 - c) by lia.
  rewrite (pow2_split 0 (Z.min e 0) c) by lia.
  pose proof (pow2_pos (Z.min e 0 - c) ltac:(lia)).
  rewrite Z.mul_assoc. apply Z.mul_le_mono_nonneg_r; lia.
Qed.

Lemma percentage_of_Z (p : Z) : 0 <= p <= 100 -> percentage (Js.of_Z p).
Proof.
  intros H. cbv beta iota delta [percentage Js.le Js.of_Z].
  change (2 ^ (0 - Z.min 0 0)) with 1. rewrite !Z.mul_1_r. exact H.
Qed.

Lemma percent_in_range (r : Js.Number) :
  in_unit_interval r -> percentage (Js.Math_round (Js.times r 100)).
Proof.
  intros H. destruct (unit_interval_finite r H) as (m & e & -> & Hm & Hle).
  destruct (unit_percent m e (Z.min e 0) Hm ltac:(lia) ltac:(lia)
              (Hle (Z.min e 0) ltac:(lia) ltac:(lia))) as [-> Hp].
  apply percentage_of_Z, Hp.
Qed.

Lemma percent_mono (r1 r2 : Js.Number) :
  in_unit_interval r1 -> in_unit_interval r2 -> Js.le r1 r2 ->
  Js.le (Js.Math_round (Js.times r1 100)) (Js.Math_round (Js.times r2 100)).
Proof.
  intros H1 H2 H12.
  destruct (unit_interval_finite r1 H1) as (m1 & e1 & -> & Hm1 & Hle1).
  destruct (unit_interval_finite r2 H2) as (m2 & e2 & -> & Hm2 & Hle2).
  set (c := Z.min (Z.min e1 e2) 0).
  destruct (unit_percent m1 e1 c Hm1 ltac:(lia) ltac:(lia)
              (Hle1 c ltac:(lia) ltac:(lia))) as [-> _].
  destruct (unit_percent m2 e2 c Hm2 ltac:(lia) ltac:(lia)
              (Hle2 c ltac:(lia) ltac:(lia))) as [-> _].
  cbv beta iota delta [Js.le Js.of_Z] in H12 |- *.
  assert (m1 * 2 ^ (e1 - c) <= m2 * 2 ^ (e2 - c)) as Hs.
  { rewrite (pow2_split e1 (Z.min e1 e2) c), (pow2_split e2 (Z.min e1 e2) c)
      by lia.
    pose proof (pow2_pos (Z.min e1 e2 - c) ltac:(lia)).
    rewrite !Z.mul_assoc. apply Z.mul_le_mono_nonneg_r; lia. }
  change (2 ^ (0 - Z.min 0 0)) with 1. rewrite !Z.mul_1_r.
  apply nearest_integer_mono, round53_mono.
  pose proof (pow2_pos (e1 - c) ltac:(lia)). nia.
Qed.

(** A whole ratio of moderate size is shown as a hundred times itself:
    the product is exact and nothing brings it back between 0 and 100. *)
Lemma whole_ratio_percent (n : Z) :
  Z.abs n < 2 ^ 46 ->
  Js.Math_round (Js.times (Js.of_Z n) 100) = Js.of_Z (n * 100).
Proof.
  intros Hn. unfold Js.times, Js.of_Z. rewrite Z.add_0_r.
  assert (Z.abs (n * 100) < 2 ^ 53) as Hb.
  { rewrite Z.abs_mul. change (Z.abs 100) with 100.
    change (2 ^ 53) with (2 ^ 46 * 128). lia. }
  assert (Js.round53 (Z.abs (n * 100)) 0 = Z.abs (n * 100)) as ->.
  { unfold Js.round53. apply round_to_fix. left. unfold Js.grid.
    destruct (Z.eq_dec (Z.abs (n * 100)) 0) as [->|Hne]; [cbn; lia|].
    assert (Z.log2 (Z.abs (n * 100)) < 53)
      by (apply Z.log2_lt_pow2; lia).
    lia. }
  assert (Js.overflows (Z.abs (n * 100)) 0 = false) as ->.
  { unfold Js.overflows. cbn [Z.leb Z.compare]. apply Z.leb_gt.
    change (2 ^ 0) with 1. rewrite Z.mul_1_r.
    assert (2 ^ 53 < 2 ^ 1024) by (apply Z.ltb_lt; vm_compute; reflexivity).
    lia. }
  cbn [Js.Math_round]. unfold Js.of_Z, Js.nearest_integer.
  cbn [Z.leb Z.compare]. change (2 ^ 0) with 1. rewrite Z.mul_1_r.
  f_equal. rewrite Z.mul_comm. apply Z.abs_sgn.
Qed.

(** An odd number of eighths is an exact double and so is a hundred times
    it, which ends in one half: it is shown rounded towards plus
    infinity. *)
Lemma eighth_ratio_percent (n : Z) :
  Z.abs n < 2 ^ 40 ->
  Js.Math_round (Js.times (Js.Finite (2 * n + 1) (-3)) 100)
  = Js.of_Z (25 * n + 13).
Proof.
  intros Hn. unfold Js.times, Js.of_Z. rewrite Z.add_0_r.
  assert (Z.abs ((2 * n + 1) * 100) < 2 ^ 53) as Hb.
  { change (2 ^ 53) with (2 ^ 40 * 8192). lia. }
  assert (Js.round53 (Z.abs ((2 * n + 1) * 100)) (-3)
          = Z.abs ((2 * n + 1) * 100)) as ->.
  { unfold Js.round53. apply round_to_fix. left. unfold Js.grid.
    assert (Z.log2 (Z.abs ((2 * n + 1) * 100)) < 53)
      by (apply Z.log2_lt_pow2; lia).
    lia. }
  assert (Js.overflows (Z.abs ((2 * n + 1) * 100)) (-3) = false) as ->.
  { unfold Js.overflows. cbn [Z.leb Z.compare]. apply Z.leb_gt.
    assert (2 ^ 53 < 2 ^ (1024 - -3))
      by (apply Z.ltb_lt; vm_compute; reflexivity).
    lia. }
  cbn [Js.Math_round]. unfold Js.of_Z, Js.nearest_integer.
  cbn [Z.leb Z.compare]. f_equal.
  rewrite (Z.mul_comm (Z.sgn _)), Z.abs_sgn.
  change (2 ^ (- -3 - 1)) with 4. change (2 ^ (- -3)) with 8.
  replace ((2 * n + 1) * 100 + 4) with ((25 * n + 13) * 8) by ring.
  apply Z.div_mul. discriminate.
Qed.

Lemma progress_event_relayed (s : State) (ratio : Js.Number) :
  has_engine s = true ->
  progress (step s (EngineProgress ratio))
    = Js.Math_round (Js.times ratio 100)
  /\ has_engine (step s (EngineProgress ratio)) = true.
Proof. intros H. cbn [step]. rewrite H. split; [reflexivity|exact H]. Qed.

Lemma progress_trace_relayed (ratios : list Js.Number) (s : State) :
  has_engine s = true ->
  progress_trace s (map EngineProgress ratios)
  = map (fun ratio => Js.Math_round (Js.times ratio 100)) ratios.
Proof.
  revert s. induction ratios as [|r ratios IH]; intros s H; [reflexivity|].
  destruct (progress_event_relayed s r H) as [Hp He].
  cbn [map progress_trace]. rewrite Hp, (IH _ He). reflexivity.
Qed.

Lemma rounded_sorted (ratios : list Js.Number) :
  Sorted Js.le ratios ->
  Forall in_unit_interval ratios ->
  Sorted Js.le (map (fun ratio => Js.Math_round (Js.times ratio 100)) ratios).
Proof.
  induction 1 as [|r ratios _ IH Hhd]; intros Hall; cbn [map];
    constructor.
  - apply IH. apply Forall_cons in Hall. tauto.
  - apply Forall_cons in Hall as [Hr Hrs].
    destruct Hhd as [|r' ratios Hle]; cbn [map]; constructor.
    apply Forall_cons in Hrs as [Hr' _].
    apply percent_mono; assumption.
Qed.

(** What an event does to the progress shown: it leaves it, or sets it to
    0, or, for a report of the engine, sets it to the rounded percentage
    of that report. *)
Lemma progress_step (s : State) (e : Event) :
  progress (step s e) = progress s
  \/ progress (step s e) = 0
  \/ exists ratio,
       e = EngineProgress ratio
       /\ progress (step s e) = Js.Math_round (Js.times ratio 100).
Proof.
  destruct e as [|sel|v| | | |i r|m|q]; cbn [step].
  - left. unfold loadFFmpeg.
    destruct (negb (isFFmpegLoaded s) && negb (isLoading s));
      destruct (isFFmpegLoaded s); reflexivity.
  - destruct (isFFmpegLoaded s), sel; auto.
  - left. destruct (has_file s); reflexivity.
  - unfold convertVideo.
    destruct (has_file s && isFFmpegLoaded s && negb (isLoading s));
      destruct (file s), (negb (isFFmpegLoaded s)); auto.
  - destruct (has_file s); auto.
  - left. unfold downloadFile.
    destruct (has_artifact s), (convertedFile s); reflexivity.
  - unfold settle. destruct (pending s !! i) as [t|]; [|auto].
    destruct t as [st|f fmt st], r as [data|msg], st; cbn;
      try destruct (ffmpegRef s); cbn; auto.
  - left. destruct (has_engine s); reflexivity.
  - destruct (has_engine s); [|auto].
    right. right. exists q. split; reflexivity.
Qed.

(** C7, as amended.  While the engine exists, the progress shown after a
    report is [Math.round(ratio * 100)] of that report alone, computed on
    doubles, whatever was shown before: no smoothing, and no clamping (a
    whole ratio [n] is shown as [100 n], so 2 gives 200 and -1 gives
    -100); a half is rounded towards plus infinity (1/8 gives 13), and the
    double nearest to 0.015 gives 2.  Any other event leaves the value or
    sets it to 0.  For reports that follow one another, the values shown
    are non-decreasing and within 0..100 when the ratios are
    non-decreasing and within 0..1. *)
Theorem C7_progress_relayed_from_engine (s : State) :
  has_engine s = true ->
  (forall ratios,
     progress_trace s (map EngineProgress ratios)
     = map (fun ratio => Js.Math_round (Js.times ratio 100)) ratios)
  /\ (forall n,
        Z.abs n < 2 ^ 46 ->
        progress (step s (EngineProgress (Js.of_Z n))) = Js.of_Z (n * 100))
  /\ (forall n,
        Z.abs n < 2 ^ 40 ->
        progress (step s (EngineProgress (Js.Finite (2 * n + 1) (-3))))
        = Js.of_Z (25 * n + 13))
  /\ progress (step s (EngineProgress (Js.Finite 8646911284551352 (-59))))
     = 2
  /\ (forall e,
        progress (step s e) = progress s
        \/ progress (step s e) = 0
        \/ exists ratio,
             e = EngineProgress ratio
             /\ progress (step s e) = Js.Math_round (Js.times ratio 100))
  /\ (forall ratios,
        Sorted Js.le ratios ->
        Forall in_unit_interval ratios ->
        Sorted Js.le (progress_trace s (map EngineProgress ratios))
        /\ Forall percentage (progress_trace s (map EngineProgress ratios))).
Proof.
  intros He.
  split; [intros ratios; apply progress_trace_relayed, He|].
  split.
  { intros n Hn. destruct (progress_event_relayed s (Js.of_Z n) He) as [-> _].
    apply whole_ratio_percent, Hn. }
  split.
  { intros n Hn.
    destruct (progress_event_relayed s (Js.Finite (2 * n + 1) (-3)) He)
      as [-> _].
    apply eighth_ratio_percent, Hn. }
  split.
  { destruct (progress_event_relayed s
                (Js.Finite 8646911284551352 (-59)) He) as [-> _].
    vm_compute. reflexivity. }
  split; [apply progress_step|].
  intros ratios Hs Hb. rewrite (progress_trace_relayed ratios s He).
  split; [apply rounded_sorted; assumption|].
  clear Hs. induction Hb as [|r ratios Hr _ IH]; cbn [map]; constructor.
  - apply percent_in_range, Hr.
  - exact IH.
Qed.

Lemma C7_progress_witness :
  ((forall ratios,
      progress_trace (run initial (load_ok ++ until_exec))
        (map EngineProgress ratios)
      = map (fun ratio => Js.Math_round (Js.times ratio 100)) ratios)
   /\ (forall n,
         Z.abs n < 2 ^ 46 ->
         progress (step (run initial (load_ok ++ until_exec))
                        (EngineProgress (Js.of_Z n))) = Js.of_Z (n * 100))
   /\ (forall n,
         Z.abs n < 2 ^ 40 ->
         progress (step (run initial (load_ok ++ until_exec))
                        (EngineProgress (Js.Finite (2 * n + 1) (-3))))
         = Js.of_Z (25 * n + 13))
   /\ progress (step (run initial (load_ok ++ until_exec))
                     (EngineProgress (Js.Finite 8646911284551352 (-59))))
      = 2
   /\ (forall e,
         progress (step (run initial (load_ok ++ until_exec)) e)
           = progress (run initial (load_ok ++ until_exec))
         \/ progress (step (run initial (load_ok ++ until_exec)) e) = 0
         \/ exists ratio,
              e = EngineProgress ratio
              /\ progress (step (run initial (load_ok ++ until_exec)) e)
                 = Js.Math_round (Js.times ratio 100))
   /\ (forall ratios,
         Sorted Js.le ratios ->
         Forall in_unit_interval ratios ->
         Sorted Js.le
           (progress_trace (run initial (load_ok ++ until_exec))
              (map EngineProgress ratios))
         /\ Forall percentage
              (progress_trace (run initial (load_ok ++ until_exec))
                 (map EngineProgress ratios))))
  /\ Sorted Js.le
       (progress_trace (run initial (load_ok ++ until_exec))
          (map EngineProgress quarter_steps))
  /\ Forall percentage
       (progress_trace (run initial (load_ok ++ until_exec))
          (map EngineProgress quarter_steps)).
Proof.
  refine (let H := C7_progress_relayed_from_engine
                     (run initial (load_ok ++ until_exec))
                     ltac:(vm_compute; reflexivity) in
          conj H (proj2 (proj2 (proj2 (proj2 (proj2 H)))) quarter_steps _ _)).
  - repeat constructor; vm_compute; discriminate.
  - repeat constructor; vm_compute; discriminate.
Defined.

(** C7, as stated, fails: while [exec] is awaited, the engine reports the
    ratios 1/2, 1/4 and 2; the progress shown is 50, then 25, then 200,
    which goes down and leaves the range 0..100. *)
Lemma C7_progress_drops_and_overshoots :
  conversions_in_flight (run initial (load_ok ++ until_exec)) = 1%nat
  /\ progress_trace (run initial (load_ok ++ until_exec))
       (map EngineProgress unruly_reports)
     = [Js.of_Z 50; Js.of_Z 25; Js.of_Z 200]
  /\ ~ Sorted Js.le
         (progress_trace (run initial (load_ok ++ until_exec))
            (map EngineProgress unruly_reports))
  /\ ~ Forall percentage
         (progress_trace (run initial (load_ok ++ until_exec))
            (map EngineProgress unruly_reports)).
Proof.
  assert (progress_trace (run initial (load_ok ++ until_exec))
            (map EngineProgress unruly_reports)
          = [Js.of_Z 50; Js.of_Z 25; Js.of_Z 200]) as E
    by (vm_compute; reflexivity).
  rewrite E.
  split; [vm_compute; reflexivity|]. split; [reflexivity|]. split.
  - intros H. apply Sorted_inv in H as [_ H]. apply HdRel_inv in H.
    vm_compute in H. apply H. reflexivity.
  - intros H. apply Forall_cons in H as [_ H]. apply Forall_cons in H as [_ H].
    apply Forall_cons in H as [[_ H] _]. vm_compute in H. apply H. reflexivity.
Qed.

(** With reports that are in order and in range, 1/2 and then 3/4, the
    progress shown still goes 50, 0, 75 when a file is selected in
    between. *)
Example selection_resets_progress_mid_job :
  progress_trace (run initial (load_ok ++ until_exec))
    [EngineProgress (Js.Finite 1 (-1)); ChooseFile (Some clip);
     EngineProgress (Js.Finite 3 (-2))]
  = [Js.of_Z 50; Js.of_Z 0; Js.of_Z 75].
Proof. vm_compute. reflexivity. Qed.

(** The double nearest to 0.015 is [8646911284551352 * 2^-59], a little
    below 0.015; its product with 100 rounds to the double 1.5, which
    [Math.round] takes to 2.  The double 1e21 is [5^21 * 2^21]; its
    product with 100 rounds to the double nearest to 1e23. *)
Example percent_of_double_0_015 :
  Js.Math_round (Js.times (Js.Finite 8646911284551352 (-59)) 100)
  = Js.of_Z 2.
Proof. vm_compute. reflexivity. Qed.

Example percent_of_double_1e21 :
  Js.Math_round (Js.times (Js.Finite 476837158203125 21) 100)
  = Js.of_Z 99999999999999991611392.
Proof. vm_compute. reflexivity. Qed.

Example percent_of_special_values :
  Js.Math_round (Js.times Js.NaN 100) = Js.NaN
  /\ Js.Math_round (Js.times Js.PosInfinity 100) = Js.PosInfinity
  /\ Js.Math_round (Js.times Js.NegInfinity 100) = Js.NegInfinity
  /\ Js.Math_round (Js.times (Js.Finite (2 ^ 53 - 1) 971) 100)
     = Js.PosInfinity
  /\ Js.Math_round (Js.times (Js.Finite (-5) (-1)) 100) = Js.of_Z (-250)
  /\ Js.Math_round (Js.Finite (-5) (-1)) = Js.of_Z (-2).
Proof. repeat split; vm_compute; reflexivity. Qed.


(** ** Completion of a conversion *)

(** A resumed conversion ends exactly when it fails, or when the promise
    of [readFile] is fulfilled. *)
Lemma completion_cases (f : File) (fmt : string) (stage : ConvertStage)
    (r : Settled) (s : State) :
  (resume_convert f fmt stage r s).1 = None <->
  fails_at stage r s
  \/ exists ffmpeg data, stage = AwaitReadFile ffmpeg /\ r = Fulfilled data.
Proof.
  destruct r as [data|msg], stage; cbn;
    try destruct (ffmpegRef s); cbn;
    (split;
     [ intros H; try discriminate H; eauto
     | intros [H|(n' & d' & H & H')]; try discriminate; try contradiction;
       reflexivity ]).
Qed.

(** C10.  Whenever a suspended conversion runs to its end, by the last
    promise being fulfilled or by a failure at any stage, the state it
    leaves has progress 0 and the in-flight flag cleared, and the handler
    is no longer suspended. *)
Theorem C10_completion_resets_progress (s : State) (i : nat) (f : File)
    (fmt : string) (stage : ConvertStage) (r : Settled) :
  pending s !! i = Some (ConvertTask f fmt stage) ->
  (resume_convert f fmt stage r s).1 = None ->
  progress (settle i r s) = 0
  /\ isLoading (settle i r s) = false
  /\ pending (settle i r s) = delete i (pending s).
Proof.
  intros Hi Hend. unfold settle. rewrite Hi. cbn [resume].
  destruct r as [data|msg], stage; cbn in Hend |- *;
    try discriminate; try (repeat split; fail).
  destruct (ffmpegRef s); [discriminate|]. repeat split.
Qed.

Lemma C10_completion_witness :
  progress (settle 0 ok (run initial (load_ok ++ until_exec ++ [Settle 0 ok])))
    = 0
  /\ isLoading
       (settle 0 ok (run initial (load_ok ++ until_exec ++ [Settle 0 ok])))
     = false
  /\ pending
       (settle 0 ok (run initial (load_ok ++ until_exec ++ [Settle 0 ok])))
     = delete 0%nat
         (pending (run initial (load_ok ++ until_exec ++ [Settle 0 ok]))).
Proof.
  refine (C10_completion_resets_progress
            (run initial (load_ok ++ until_exec ++ [Settle 0 ok]))
            0 clip "webm" (AwaitReadFile 0) ok _ _).
  - vm_compute. reflexivity.
  - reflexivity.
Defined.

(** A successful conversion in full: 100 was shown, 0 is shown at the end,
    and the artifact is there. *)
Example successful_conversion_ends_at_zero :
  progress (run initial (load_ok ++ until_exec ++ [EngineProgress 1])) = 100
  /\ progress converted = 0
  /\ isLoading converted = false
  /\ has_artifact converted = true.
Proof. vm_compute. repeat split. Qed.

(** ** Calls to [exec] *)

(** The calls to [exec] carry the command built from the captured file and
    format. *)
Lemma resume_exec_calls (t : Task) (r : Settled) (s : State) :
  exec_calls (resume t r s).2 = exec_calls s
  \/ exists f fmt,
       exec_calls (resume t r s).2 = exec_calls s ++ [command f fmt].
Proof.
  destruct t as [st|f fmt st], r as [data|msg], st;
    try (left; cbn; destruct (ffmpegRef s); reflexivity);
    unfold exec_calls; cbn; rewrite ?omap_app; cbn;
    rewrite ?app_nil_r; eauto.
Qed.

Lemma step_exec_calls (s : State) (e : Event) :
  exec_calls (step s e) = exec_calls s
  \/ exists f fmt, exec_calls (step s e) = exec_calls s ++ [command f fmt].
Proof.
  destruct e as [|sel|v| | | |i r|m|q]; cbn [step];
    try (left;
         repeat match goal with
           | |- context [if ?b then _ else _] => destruct b
           end; reflexivity).
  - left. unfold loadFFmpeg.
    destruct (negb (isFFmpegLoaded s) && negb (isLoading s));
      destruct (isFFmpegLoaded s); reflexivity.
  - left. destruct (isFFmpegLoaded s), sel; reflexivity.
  - left. unfold convertVideo.
    destruct (has_file s && isFFmpegLoaded s && negb (isLoading s));
      destruct (file s), (negb (isFFmpegLoaded s)); reflexivity.
  - left. unfold downloadFile.
    destruct (has_artifact s), (convertedFile s); reflexivity.
  - unfold settle. destruct (pending s !! i) as [t|]; [|left; reflexivity].
    pose proof (resume_exec_calls t r s) as H.
    destruct (resume t r s) as [[t'|] s']; exact H.
Qed.

(** Every argument list the engine's [exec] ever receives is a [command]. *)
Lemma exec_calls_are_commands (s : State) (args : list string) :
  reachable s -> args ∈ exec_calls s ->
  exists f fmt, args = command f fmt.
Proof.
  intros Hr. revert args.
  induction Hr as [|s e _ IH]; intros args Hin.
  - cbn in Hin. apply elem_of_nil in Hin. contradiction.
  - destruct (step_exec_calls s e) as [E|(f & fmt & E)]; rewrite E in Hin.
    + apply IH, Hin.
    + apply elem_of_app in Hin as [Hin|Hin]; [apply IH, Hin|].
      apply list_elem_of_singleton in Hin. eauto.
Qed.

(** Hence no call to [exec] from a reachable state has the documented
    shape. *)
Corollary exec_calls_never_have_shape (s : State) (args : list string)
    (input output : string) :
  reachable s -> args ∈ exec_calls s -> has_shape input output args = false.
Proof.
  intros Hr Hin.
  destruct (exec_calls_are_commands s args Hr Hin) as (f & fmt & ->).
  apply has_shape_command.
Qed.

(** [convertVideo] returns at once, leaving every cell as it is, when no
    file is selected or the engine is not loaded; the convert button is
    not rendered in such a state. *)
Lemma convertVideo_guard (s : State) :
  has_file s = false \/ isFFmpegLoaded s = false ->
  convertVideo s = s /\ step s ClickConvert = s.
Proof.
  unfold convertVideo, has_file. cbn [step]. unfold has_file.
  intros [H|H].
  - destruct (file s); [discriminate|]. split; reflexivity.
  - rewrite H. destruct (file s); cbn; split; reflexivity.
Qed.

(** ** The handlers without the renderer *)

(** Neither handler tests the in-flight flag itself: called directly on a
    state with a job in flight, each would suspend a second one.  It is
    the [disabled={isLoading}] of the two buttons that keeps this from
    happening. *)
Remark handlers_do_not_test_the_flag :
  loads_in_flight (loadFFmpeg (run initial [ClickInitialize])) = 2%nat
  /\ conversions_in_flight
       (convertVideo (run initial (load_ok ++ until_exec))) = 2%nat.
Proof. split; vm_compute; reflexivity. Qed.

(** * Further properties of the handlers *)

(** ** Handle names and the artifact name *)

Lemma split_pieces_plain (s : string) :
  Forall (fun piece => has_dot piece = false) (Js.split "." s).
Proof.
  induction s as [|c s IH]; cbn [Js.split].
  - constructor; [reflexivity|constructor].
  - destruct (Ascii.eqb c ".") eqn:E.
    + constructor; [reflexivity|exact IH].
    + destruct (Js.split "." s) as [|piece pieces] eqn:Es;
        [exfalso; exact (split_nonempty "." s Es)|].
      apply Forall_cons in IH as [Hp Hps].
      constructor; [|exact Hps]. cbn. rewrite E, Hp. reflexivity.
Qed.

(** X1.  The two names under which [convertVideo] writes and reads in the
    engine's file system never coincide, neither can be taken for an
    option, and the extension part of the input name holds no dot. *)
Theorem handle_names_distinct_and_plain (f : File) (fmt : string) :
  inputName f <> outputName fmt
  /\ (forall flag, inputName f <> String "-" flag)
  /\ (forall flag, outputName fmt <> String "-" flag)
  /\ exists ext, inputName f = "input." +:+ ext /\ has_dot ext = false.
Proof.
  split; [unfold inputName, outputName; cbn; discriminate|].
  split; [intros flag H; exact (input_name_not_flag _ _ H)|].
  split; [intros flag H; exact (output_name_not_flag _ _ H)|].
  unfold inputName, Js.pop.
  pose proof (split_pieces_plain (file_name f)) as Hall.
  pose proof (split_nonempty "." (file_name f)) as Hne.
  destruct (last (Js.split "." (file_name f))) as [ext|] eqn:E.
  - exists ext. split; [reflexivity|].
    apply last_Some_elem_of in E.
    rewrite Forall_forall in Hall. apply Hall, E.
  - apply last_None in E. contradiction.
Qed.

(** X2.  The artifact name takes the text before the first dot of the file
    name, whatever follows it (further dots included), and the whole name
    when there is no dot; [" .  "] and the format follow. *)
Theorem converted_name_cut_at_first_dot (stem rest fmt : string)
    (bytes : list ascii) :
  has_dot stem = false ->
  converted_name {| file_name := stem +:+ "." +:+ rest; file_bytes := bytes |}
                 fmt
    = stem +:+ " .  " +:+ fmt
  /\ converted_name {| file_name := stem; file_bytes := bytes |} fmt
     = stem +:+ " .  " +:+ fmt.
Proof.
  intros H. unfold converted_name, Js.index. cbn [file_name].
  change ("." +:+ rest) with (String "." rest).
  rewrite split_app, (split_no_dot stem H). split; reflexivity.
Qed.

Lemma converted_name_witness :
  converted_name {| file_name := "my.holiday.mov"; file_bytes := [] |} "webm"
    = "my .  webm"
  /\ converted_name {| file_name := "my"; file_bytes := [] |} "webm"
     = "my .  webm".
Proof.
  refine (converted_name_cut_at_first_dot "my" "holiday.mov" "webm" [] _).
  reflexivity.
Defined.

(** ** The format switch *)

(** X3.  Whatever the format string, the switch pushes one video codec and one
    audio codec; every format but [webm] and [avi] gets [libx264] with
    [aac] (unknown formats included); [mp4] gets the preset [medium] after
    them, and no other format gets a preset. *)
Theorem format_flags_policy (fmt : string) :
  occurrences "-c:v" (format_flags fmt) = 1%nat
  /\ occurrences "-c:a" (format_flags fmt) = 1%nat
  /\ (fmt <> "webm" -> fmt <> "avi" ->
      exists extra,
        format_flags fmt = ["-c:v"; "libx264"; "-c:a"; "aac"] ++ extra)
  /\ (fmt <> "mp4" -> occurrences "-preset" (format_flags fmt) = 0%nat)
  /\ (fmt = "webm" ->
      format_flags fmt = ["-c:v"; "libvpx-vp9"; "-c:a"; "libopus"])
  /\ (fmt = "avi" -> format_flags fmt = ["-c:v"; "libx264"; "-c:a"; "mp3"])
  /\ (fmt = "mp4" ->
      format_flags fmt
      = ["-c:v"; "libx264"; "-c:a"; "aac"; "-preset"; "medium"]).
Proof.
  unfold format_flags.
  destruct (String.eqb_spec fmt "mp4") as [->|Hmp4].
  { repeat split; try reflexivity; try discriminate; try congruence.
    intros _ _. eexists. reflexivity. }
  destruct (String.eqb_spec fmt "webm") as [->|Hwebm].
  { repeat split; try reflexivity; try discriminate; congruence. }
  destruct (String.eqb_spec fmt "avi") as [->|Havi].
  { repeat split; try reflexivity; try discriminate; congruence. }
  destruct (String.eqb_spec fmt "mov") as [->|Hmov];
    [|destruct (String.eqb_spec fmt "mkv") as [->|Hmkv]];
    (repeat split; try reflexivity; try congruence;
     intros _ _; exists []; reflexivity).
Qed.

(** ** Loading the engine *)

(** X4.  A load whose three promises are fulfilled: one instance is constructed
    and becomes the reference, [load] is called on it with the three
    pinned URLs, the loaded flag is set and the in-flight flag cleared.
    The file, the artifact and the error message are left alone: an error
    shown by an earlier failed load stays on screen. *)
Theorem load_success (s : State) :
  pending s = [] ->
  isLoading s = false ->
  isFFmpegLoaded s = false ->
  let s' := run s load_ok in
  isFFmpegLoaded s' = true
  /\ isLoading s' = false
  /\ pending s' = []
  /\ ffmpegRef s' = Some (instances s)
  /\ engineCalls s' =
       engineCalls s
         ++ [CallNew (instances s);
             CallLoad (instances s)
               "https://unpkg.com/@ffmpeg/core@0.12.6/dist/umd/ffmpeg-core.js"
               "https://unpkg.com/@ffmpeg/core@0.12.6/dist/umd/ffmpeg-core.wasm"
               "https://unpkg.com/@ffmpeg/core@0.12.6/dist/umd/ffmpeg-core.worker.js"]
  /\ logs s' = logs s ++ ["Loading FFmpeg..."; "FFmpeg loaded successfully!"]
  /\ error s' = error s
  /\ file s' = file s
  /\ convertedFile s' = convertedFile s.
Proof.
  destruct s as [f fmt il ld pr cf er lg ref pd calls urls dl].
  cbn [pending isLoading isFFmpegLoaded]. intros -> -> ->.
  vm_compute; repeat split; symmetry; exact (app_assoc _ [_] [_]).
Qed.

Lemma load_success_witness :
  let s' := run initial load_ok in
  isFFmpegLoaded s' = true
  /\ isLoading s' = false
  /\ pending s' = []
  /\ ffmpegRef s' = Some (instances initial)
  /\ engineCalls s' =
       engineCalls initial
         ++ [CallNew (instances initial);
             CallLoad (instances initial)
               "https://unpkg.com/@ffmpeg/core@0.12.6/dist/umd/ffmpeg-core.js"
               "https://unpkg.com/@ffmpeg/core@0.12.6/dist/umd/ffmpeg-core.wasm"
               "https://unpkg.com/@ffmpeg/core@0.12.6/dist/umd/ffmpeg-core.worker.js"]
  /\ logs s' = logs initial
                 ++ ["Loading FFmpeg..."; "FFmpeg loaded successfully!"]
  /\ error s' = error initial
  /\ file s' = file initial
  /\ convertedFile s' = convertedFile initial.
Proof.
  refine (load_success initial _ _ _); reflexivity.
Defined.

(** X5.  A load that fails at any of its three promises: the loaded flag stays
    off and the in-flight flag is cleared, the message is shown and
    logged; afterwards a click on the convert button does nothing (the
    button is not rendered), while the initialise button starts a new
    load. *)
Theorem load_failure (s : State) (k : nat) (errorMsg : string) :
  pending s = [] ->
  isLoading s = false ->
  isFFmpegLoaded s = false ->
  (k < 3)%nat ->
  let s' := run s (failed_load k errorMsg) in
  isFFmpegLoaded s' = false
  /\ isLoading s' = false
  /\ pending s' = []
  /\ error s' = "Failed to load FFmpeg: " +:+ errorMsg
  /\ logs s' = logs s ++ ["Loading FFmpeg...";
                          "Error loading FFmpeg: " +:+ errorMsg]
  /\ step s' ClickConvert = s'
  /\ pending (step s' ClickInitialize) = [LoadTask AwaitImportFFmpeg].
Proof.
  destruct s as [f fmt il ld pr cf er lg ref pd calls urls dl].
  cbn [pending isLoading isFFmpegLoaded]. intros -> -> -> Hk.
  destruct k as [|[|[|k]]]; try lia; clear Hk;
    destruct f; vm_compute; repeat split;
    symmetry; exact (app_assoc _ [_] [_]).
Qed.

Lemma load_failure_witness :
  let s' := run initial (failed_load 2 "network") in
  isFFmpegLoaded s' = false
  /\ isLoading s' = false
  /\ pending s' = []
  /\ error s' = "Failed to load FFmpeg: " +:+ "network"
  /\ logs s' = logs initial ++ ["Loading FFmpeg...";
                                "Error loading FFmpeg: " +:+ "network"]
  /\ step s' ClickConvert = s'
  /\ pending (step s' ClickInitialize) = [LoadTask AwaitImportFFmpeg].
Proof.
  refine (load_failure initial 2 "network" _ _ _ _);
    first [reflexivity | lia].
Defined.

(** ** The in-flight flag *)

(** X6.  In every reachable state the in-flight flag is set exactly when a
    handler is suspended, a load and a conversion are never in flight
    together, a load is in flight only before the engine is loaded and a
    conversion only after. *)
Theorem busy_flag_tracks_the_job (s : State) :
  reachable s ->
  (isLoading s = true <-> pending s <> [])
  /\ (loads_in_flight s + conversions_in_flight s <= 1)%nat
  /\ ((0 < loads_in_flight s)%nat -> isFFmpegLoaded s = false)
  /\ ((0 < conversions_in_flight s)%nat -> isFFmpegLoaded s = true).
Proof.
  intros Hr. apply reachable_one_job in Hr.
  unfold one_job_at_a_time, loads_in_flight, conversions_in_flight in *.
  destruct (pending s) as [|[st|f fmt st] [|t' pd]]; cbn;
    try contradiction.
  - rewrite Hr. repeat split; try lia; congruence.
  - destruct Hr as [-> ->]. repeat split; try lia; congruence.
  - destruct Hr as [-> ->]. repeat split; try lia; congruence.
Qed.

Lemma busy_flag_witness :
  (isLoading (run initial (load_ok ++ until_exec)) = true
   <-> pending (run initial (load_ok ++ until_exec)) <> [])
  /\ (loads_in_flight (run initial (load_ok ++ until_exec))
      + conversions_in_flight (run initial (load_ok ++ until_exec)) <= 1)%nat
  /\ ((0 < loads_in_flight (run initial (load_ok ++ until_exec)))%nat ->
      isFFmpegLoaded (run initial (load_ok ++ until_exec)) = false)
  /\ ((0 < conversions_in_flight (run initial (load_ok ++ until_exec)))%nat ->
      isFFmpegLoaded (run initial (load_ok ++ until_exec)) = true).
Proof.
  refine (busy_flag_tracks_the_job (run initial (load_ok ++ until_exec)) _).
  apply reachable_run.
Defined.

(** ** The engine instance *)

Lemma engine_in_place_step (s : State) (e : Event) :
  one_job_at_a_time s -> engine_in_place s -> engine_in_place (step s e).
Proof.
  destruct s as [f fmt il ld pr cf er lg ref pd calls urls dl].
  unfold one_job_at_a_time, engine_in_place, has_engine.
  cbn [pending isLoading isFFmpegLoaded ffmpegRef].
  destruct pd as [|t [|t' pd]]; [| |destruct t; contradiction].
  - intros -> [Hld _].
    destruct e as [|sel|v| | | |i r|m|q];
      try (destruct sel); destruct ld, f, cf, ref; cbn;
      try (unfold settle; destruct i; cbn);
      split; auto; try discriminate.
  - intros H [Hld Ht].
    destruct e as [|sel|v| | | |i r|m|q];
      try (destruct sel); try (destruct i as [|[|i]]);
      destruct t as [st|tf tfmt st]; destruct H as [-> ->];
      try (destruct st); try (destruct r); destruct f, cf, ref;
      cbn in Hld, Ht |- *; unfold settle; cbn;
      split; auto; try discriminate;
      try (intros n' Hn'; cbn in Hn'; try discriminate;
           apply Ht; exact Hn').
Qed.

Lemma reachable_engine_in_place (s : State) :
  reachable s -> engine_in_place s.
Proof.
  induction 1 as [|s e Hr IH].
  - split; [discriminate|exact I].
  - apply engine_in_place_step; [apply reachable_one_job, Hr|exact IH].
Qed.

(** X7.  In every reachable state a loaded engine has its instance in the
    reference, so a conversion never runs into the [TypeError] of a call
    on [null]: a suspended conversion fails only when the promise it
    awaits is rejected. *)
Theorem loaded_engine_is_present (s : State) :
  reachable s ->
  (isFFmpegLoaded s = true -> has_engine s = true)
  /\ (forall i f fmt stage data,
        pending s !! i = Some (ConvertTask f fmt stage) ->
        ~ fails_at stage (Fulfilled data) s).
Proof.
  intros Hr. pose proof (reachable_one_job s Hr) as Hone.
  destruct (reachable_engine_in_place s Hr) as [Hld _].
  split; [exact Hld|].
  intros i f fmt stage data Hi Hf.
  unfold one_job_at_a_time in Hone.
  destruct (pending s) as [|t [|t' pd]]; [destruct i; discriminate| |].
  - destruct i as [|i]; [|destruct i; discriminate].
    injection Hi as ->. destruct Hone as [_ Hloaded].
    specialize (Hld Hloaded). unfold has_engine in Hld.
    destruct stage; cbn in Hf; try contradiction.
    rewrite Hf in Hld. discriminate.
  - destruct t; contradiction.
Qed.

Lemma loaded_engine_witness :
  (isFFmpegLoaded (run initial (load_ok ++ until_exec)) = true ->
   has_engine (run initial (load_ok ++ until_exec)) = true)
  /\ (forall i f fmt stage data,
        pending (run initial (load_ok ++ until_exec)) !! i
          = Some (ConvertTask f fmt stage) ->
        ~ fails_at stage (Fulfilled data)
            (run initial (load_ok ++ until_exec))).
Proof.
  refine (loaded_engine_is_present (run initial (load_ok ++ until_exec)) _).
  apply reachable_run.
Defined.

Lemma loaded_engine_kept_step (s : State) (e : Event) :
  one_job_at_a_time s ->
  isFFmpegLoaded s = true ->
  isFFmpegLoaded (step s e) = true
  /\ ffmpegRef (step s e) = ffmpegRef s
  /\ exists extra,
       engineCalls (step s e) = engineCalls s ++ extra
       /\ Forall (fun c => is_construction c = false) extra.
Proof.
  destruct s as [f fmt il ld pr cf er lg ref pd calls urls dl].
  unfold one_job_at_a_time.
  cbn [pending isLoading isFFmpegLoaded ffmpegRef engineCalls].
  intros Hone ->.
  destruct pd as [|t [|t' pd]]; [| |destruct t; contradiction].
  - subst il.
    destruct e as [|sel|v| | | |i r|m|q];
      try (destruct sel); destruct f, cf, ref; cbn;
      try (unfold settle; destruct i; cbn);
      (split; [reflexivity|]; split; [reflexivity|]);
      exists []; (split; [symmetry; apply app_nil_r|constructor]).
  - destruct t as [st|tf tfmt st]; destruct Hone as [-> Hld];
      [discriminate|clear Hld].
    destruct e as [|sel|v| | | |i r|m|q];
      try (destruct sel); try (destruct i as [|[|i]]);
      try (destruct st); try (destruct r); destruct f, cf, ref;
      cbn; unfold settle; cbn;
      (split; [reflexivity|]; split; [reflexivity|]);
      first [ exists []; split; [symmetry; apply app_nil_r|constructor]
            | eexists [_]; split; [reflexivity|repeat constructor] ].
Qed.

(** X8.  Once the engine is loaded, no sequence of events (errors, resets and
    new files included) clears the loaded flag, replaces the instance in
    the reference, or makes the component construct or load an engine
    again. *)
Theorem loaded_engine_is_kept (s : State) (es : list Event) :
  reachable s ->
  isFFmpegLoaded s = true ->
  isFFmpegLoaded (run s es) = true
  /\ ffmpegRef (run s es) = ffmpegRef s
  /\ exists extra,
       engineCalls (run s es) = engineCalls s ++ extra
       /\ Forall (fun c => is_construction c = false) extra.
Proof.
  revert s. induction es as [|e es IH]; intros s Hr Hld.
  - split; [exact Hld|]. split; [reflexivity|].
    exists []. split; [symmetry; apply app_nil_r|constructor].
  - destruct (loaded_engine_kept_step s e (reachable_one_job s Hr) Hld)
      as (Hld' & Href & extra1 & Hcalls & Hextra1).
    destruct (IH (step s e) (reachable_step s e Hr) Hld')
      as (Hld'' & Href' & extra2 & Hcalls' & Hextra2).
    change (run s (e :: es)) with (run (step s e) es).
    split; [exact Hld''|]. split; [congruence|].
    exists (extra1 ++ extra2). split.
    + rewrite Hcalls', Hcalls, app_assoc. reflexivity.
    + apply Forall_app. split; assumption.
Qed.

Lemma loaded_engine_kept_witness :
  isFFmpegLoaded
    (run (run initial load_ok)
         (until_exec ++ [Settle 0 (Rejected "exec failed"); ClickReset]))
    = true
  /\ ffmpegRef
       (run (run initial load_ok)
            (until_exec ++ [Settle 0 (Rejected "exec failed"); ClickReset]))
     = ffmpegRef (run initial load_ok)
  /\ exists extra,
       engineCalls
         (run (run initial load_ok)
              (until_exec ++ [Settle 0 (Rejected "exec failed"); ClickReset]))
       = engineCalls (run initial load_ok) ++ extra
       /\ Forall (fun c => is_construction c = false) extra.
Proof.
  refine (loaded_engine_is_kept (run initial load_ok)
            (until_exec ++ [Settle 0 (Rejected "exec failed"); ClickReset])
            _ _).
  - apply reachable_run.
  - vm_compute. reflexivity.
Defined.

(** ** A conversion from click to artifact *)

(** X9.  A conversion whose five promises are fulfilled: the engine receives,
    in this order, [writeFile] with the input name and the fetched bytes,
    [exec] with the command, and [readFile] with the output name, all on
    the instance in the reference; the artifact holds the bytes read back,
    typed [video/<format>], under a newly registered blob URL; the error
    message is empty, the progress is 0 and nothing is in flight. *)
Theorem conversion_success (s : State) (f : File) (n : nat)
    (fetched output : list ascii) :
  pending s = [] ->
  isLoading s = false ->
  file s = Some f ->
  isFFmpegLoaded s = true ->
  ffmpegRef s = Some n ->
  let s' := run s (successful_attempt fetched output) in
  let b := {| blob_parts := output;
              blob_type := "video/" +:+ outputFormat s |} in
  convertedFile s' =
    Some {| blob := b;
            name := converted_name f (outputFormat s);
            url := fresh_url s |}
  /\ blobUrls s' = <[fresh_url s := b]> (blobUrls s)
  /\ engineCalls s' =
       engineCalls s
         ++ [CallWriteFile n (inputName f) fetched;
             CallExec n (command f (outputFormat s));
             CallReadFile n (outputName (outputFormat s))]
  /\ logs s' = logs s
                 ++ ["Starting conversion to " +:+ outputFormat s +:+ "...";
                     "Conversion completed successfully!"]
  /\ error s' = ""
  /\ progress s' = 0
  /\ isLoading s' = false
  /\ pending s' = []
  /\ file s' = Some f.
Proof.
  destruct s as [sf fmt il ld pr cf er lg ref pd calls urls dl].
  cbn [pending isLoading isFFmpegLoaded file ffmpegRef outputFormat
       blobUrls engineCalls logs].
  intros -> -> -> -> ->.
  cbv [run successful_attempt foldl step settle resume resume_convert
       convertVideo convert_success convert_finally createObjectURL spawn
       has_file has_engine ok
       setLogs setProgress setError setIsLoading setPending
       setConvertedFile call
       file isFFmpegLoaded isLoading ffmpegRef pending outputFormat logs
       error progress convertedFile blobUrls engineCalls downloads
       negb andb lookup list_lookup insert list_insert delete list_delete
       app fresh_url].
  repeat split.
  - symmetry. etransitivity; [|apply app_assoc].
    exact (app_assoc calls [_] [_; _]).
  - symmetry. exact (app_assoc lg [_] [_]).
Qed.

Lemma conversion_success_witness :
  let s' := run ready_with_clip (successful_attempt [] []) in
  let b := {| blob_parts := [];
              blob_type := "video/" +:+ outputFormat ready_with_clip |} in
  convertedFile s' =
    Some {| blob := b;
            name := converted_name clip (outputFormat ready_with_clip);
            url := fresh_url ready_with_clip |}
  /\ blobUrls s' = <[fresh_url ready_with_clip := b]> (blobUrls ready_with_clip)
  /\ engineCalls s' =
       engineCalls ready_with_clip
         ++ [CallWriteFile 0 (inputName clip) [];
             CallExec 0 (command clip (outputFormat ready_with_clip));
             CallReadFile 0 (outputName (outputFormat ready_with_clip))]
  /\ logs s' = logs ready_with_clip
                 ++ ["Starting conversion to "
                       +:+ outputFormat ready_with_clip +:+ "...";
                     "Conversion completed successfully!"]
  /\ error s' = ""
  /\ progress s' = 0
  /\ isLoading s' = false
  /\ pending s' = []
  /\ file s' = Some clip.
Proof.
  refine (conversion_success ready_with_clip clip 0 [] [] _ _ _ _ _);
    vm_compute; reflexivity.
Defined.

(** ** Events during a conversion *)

Lemma suspended_job_kept_step (s : State) (e : Event) (t : Task) :
  one_job_at_a_time s ->
  pending s = [t] ->
  is_settle e = false ->
  pending (step s e) = [t] /\ blobUrls (step s e) = blobUrls s.
Proof.
  destruct s as [f fmt il ld pr cf er lg ref pd calls urls dl].
  unfold one_job_at_a_time. cbn [pending isLoading isFFmpegLoaded blobUrls].
  intros Hone -> He.
  destruct e as [|sel|v| | | |i r|m|q]; try discriminate He;
    try (destruct sel); destruct t as [st|tf tfmt st];
    destruct Hone as [-> ->]; destruct f, cf, ref; cbn; split; reflexivity.
Qed.

(** X10.  Nothing but the settling of its promise moves a suspended conversion:
    whatever the user does meanwhile (another file, another format, reset,
    the disabled convert button) and whatever the engine reports, the
    conversion stays suspended as it was, and when [readFile] delivers,
    the artifact is named and typed after the file and the format of the
    click, not after the ones selected by then. *)
Theorem conversion_runs_on_captured_input (s : State) (es : list Event)
    (f : File) (fmt : string) (stage : ConvertStage) :
  reachable s ->
  pending s = [ConvertTask f fmt stage] ->
  Forall (fun e => is_settle e = false) es ->
  pending (run s es) = [ConvertTask f fmt stage]
  /\ forall n data,
       stage = AwaitReadFile n ->
       convertedFile (settle 0 (Fulfilled data) (run s es)) =
         Some {| blob := {| blob_parts := data;
                            blob_type := "video/" +:+ fmt |};
                 name := converted_name f fmt;
                 url := fresh_url s |}
       /\ file (settle 0 (Fulfilled data) (run s es)) = file (run s es).
Proof.
  intros Hr Hp Hes.
  assert (pending (run s es) = [ConvertTask f fmt stage]
          /\ blobUrls (run s es) = blobUrls s) as [Hp' Hu].
  { revert s Hr Hp. induction Hes as [|e es He _ IH]; intros s Hr Hp.
    - split; [exact Hp|reflexivity].
    - destruct (suspended_job_kept_step s e _ (reachable_one_job s Hr) Hp He)
        as [Hp1 Hu1].
      change (run s (e :: es)) with (run (step s e) es).
      destruct (IH (step s e) (reachable_step s e Hr) Hp1) as [Hp2 Hu2].
      split; [exact Hp2|congruence]. }
  split; [exact Hp'|].
  intros n data ->. unfold settle. rewrite Hp'. cbn.
  unfold fresh_url. cbn. rewrite Hu. split; reflexivity.
Qed.

Lemma conversion_captured_witness :
  pending (run (run initial (load_ok ++ until_exec ++ [Settle 0 ok])) meanwhile)
    = [ConvertTask clip "webm" (AwaitReadFile 0)]
  /\ forall n data,
       AwaitReadFile 0 = AwaitReadFile n ->
       convertedFile
         (settle 0 (Fulfilled data)
            (run (run initial (load_ok ++ until_exec ++ [Settle 0 ok]))
                 meanwhile)) =
         Some {| blob := {| blob_parts := data;
                            blob_type := "video/" +:+ "webm" |};
                 name := converted_name clip "webm";
                 url := fresh_url
                          (run initial (load_ok ++ until_exec ++ [Settle 0 ok])) |}
       /\ file
            (settle 0 (Fulfilled data)
               (run (run initial (load_ok ++ until_exec ++ [Settle 0 ok]))
                    meanwhile))
          = file
              (run (run initial (load_ok ++ until_exec ++ [Settle 0 ok]))
                   meanwhile).
Proof.
  refine (conversion_runs_on_captured_input
            (run initial (load_ok ++ until_exec ++ [Settle 0 ok]))
            meanwhile clip "webm" (AwaitReadFile 0) _ _ _).
  - apply reachable_run.
  - vm_compute. reflexivity.
  - repeat constructor.
Defined.

(** The file cell is empty after the reset in [meanwhile], and still the
    artifact of [clip.mov] appears when the conversion ends. *)
Example artifact_without_file :
  file (run initial (load_ok ++ until_exec ++ [Settle 0 ok]
                       ++ meanwhile ++ [Settle 0 ok])) = None
  /\ has_artifact (run initial (load_ok ++ until_exec ++ [Settle 0 ok]
                                  ++ meanwhile ++ [Settle 0 ok])) = true.
Proof. split; vm_compute; reflexivity. Qed.

(** ** Downloading *)

(** X11.  In every reachable state with an artifact, the download button clicks
    an anchor whose target is the artifact's URL, which is registered and
    resolves to the artifact's blob, and whose file name is the artifact's
    name; no cell of the component changes.  Without an artifact the
    click does nothing. *)
Theorem download_offers_the_artifact (s : State) :
  reachable s ->
  match convertedFile s with
  | Some c =>
      step s ClickDownload = click_anchor (url c) (name c) s
      /\ downloads (step s ClickDownload) = downloads s ++ [(url c, name c)]
      /\ blobUrls (step s ClickDownload) !! url c = Some (blob c)
      /\ convertedFile (step s ClickDownload) = Some c
  | None => step s ClickDownload = s
  end.
Proof.
  intros Hr. apply reachable_url_live in Hr. unfold artifact_url_live in Hr.
  cbn [step]. unfold has_artifact, downloadFile.
  destruct (convertedFile s) as [c|] eqn:E; [|reflexivity].
  repeat split; first [exact Hr | exact E].
Qed.

Lemma download_witness :
  match convertedFile converted with
  | Some c =>
      step converted ClickDownload = click_anchor (url c) (name c) converted
      /\ downloads (step converted ClickDownload)
         = downloads converted ++ [(url c, name c)]
      /\ blobUrls (step converted ClickDownload) !! url c = Some (blob c)
      /\ convertedFile (step converted ClickDownload) = Some c
  | None => step converted ClickDownload = converted
  end.
Proof.
  refine (download_offers_the_artifact converted _). apply reachable_run.
Defined.

(** ** The log listener *)

(** X12.  An engine log line is appended after the last ten lines shown: the
    new line is the last one, at most eleven lines are shown afterwards,
    and the lines before it are a tail of the lines shown before. *)
Theorem engine_log_keeps_last_ten (s : State) (message : string) :
  has_engine s = true ->
  last (logs (step s (EngineLog message))) = Some message
  /\ length (logs (step s (EngineLog message)))
     = S (Nat.min 10 (length (logs s)))
  /\ exists kept,
       logs (step s (EngineLog message)) = kept ++ [message]
       /\ kept `suffix_of` logs s
       /\ (length (logs s) <= 10 -> kept = logs s)%nat.
Proof.
  intros H. cbn [step]. rewrite H. unfold on_log, Js.slice_last. cbn [logs setLogs].
  split; [apply last_snoc|]. split.
  - rewrite length_app, length_drop. cbn [length]. lia.
  - eexists. split; [reflexivity|]. split; [apply suffix_drop|].
    intros Hle. replace (length (logs s) - 10)%nat with 0%nat by lia.
    reflexivity.
Qed.

Lemma engine_log_witness :
  last (logs (step converted (EngineLog "frame=  10"))) = Some "frame=  10"
  /\ length (logs (step converted (EngineLog "frame=  10")))
     = S (Nat.min 10 (length (logs converted)))
  /\ exists kept,
       logs (step converted (EngineLog "frame=  10")) = kept ++ ["frame=  10"]
       /\ kept `suffix_of` logs converted
       /\ (length (logs converted) <= 10 -> kept = logs converted)%nat.
Proof.
  refine (engine_log_keeps_last_ten converted "frame=  10" _).
  vm_compute. reflexivity.
Defined.

(** ** The blob URL registry *)

(** X13.  Over any sequence of events, every blob URL that is registered stays
    registered. *)
Theorem blob_urls_accumulate (s : State) (es : list Event) :
  dom (blobUrls s) ⊆ dom (blobUrls (run s es)).
Proof.
  revert s. induction es as [|e es IH]; intros s; [reflexivity|].
  change (run s (e :: es)) with (run (step s e) es).
  etransitivity; [|apply IH].
  destruct (step_registry s e) as [->|(u & b & ->)]; [reflexivity|].
  rewrite dom_insert_L. set_solver.
Qed.

Lemma resume_registry_fresh (t : Task) (r : Settled) (s : State) :
  blobUrls (resume t r s).2 = blobUrls s
  \/ exists b, blobUrls (resume t r s).2 = <[fresh_url s := b]> (blobUrls s).
Proof.
  destruct t as [st|f fmt st], r as [data|msg], st;
    try (left; cbn; destruct (ffmpegRef s); reflexivity).
  right. eexists. reflexivity.
Qed.

Lemma step_registry_fresh (s : State) (e : Event) :
  blobUrls (step s e) = blobUrls s
  \/ exists b, blobUrls (step s e) = <[fresh_url s := b]> (blobUrls s).
Proof.
  destruct e as [|sel|v| | | |i r|m|q]; cbn [step];
    try (left;
         repeat match goal with
           | |- context [if ?b then _ else _] => destruct b
           end; reflexivity).
  - left. unfold loadFFmpeg.
    destruct (negb (isFFmpegLoaded s) && negb (isLoading s));
      destruct (isFFmpegLoaded s); reflexivity.
  - left. destruct (isFFmpegLoaded s), sel; reflexivity.
  - left. unfold convertVideo.
    destruct (has_file s && isFFmpegLoaded s && negb (isLoading s));
      destruct (file s), (negb (isFFmpegLoaded s)); reflexivity.
  - left. unfold downloadFile.
    destruct (has_artifact s), (convertedFile s); reflexivity.
  - unfold settle. destruct (pending s !! i) as [t|]; [|left; reflexivity].
    pose proof (resume_registry_fresh t r s) as H.
    destruct (resume t r s) as [[t'|] s']; exact H.
Qed.

Lemma blob_prefix_inj (a b : string) : "blob:" +:+ a = "blob:" +:+ b -> a = b.
Proof. intros H. cbn in H. injection H as H. exact H. Qed.

Lemma numbered_fresh (s : State) :
  registry_numbered s -> blobUrls s !! fresh_url s = None.
Proof.
  intros Hn. destruct (blobUrls s !! fresh_url s) as [b|] eqn:E; [|reflexivity].
  destruct (proj1 (Hn (fresh_url s)) (mk_is_Some _ _ E)) as (i & Hi & Heq).
  unfold fresh_url in Heq.
  apply blob_prefix_inj, (inj pretty) in Heq. lia.
Qed.

Lemma numbered_step (s : State) (e : Event) :
  registry_numbered s -> registry_numbered (step s e).
Proof.
  intros Hn. destruct (step_registry_fresh s e) as [E|[b E]];
    unfold registry_numbered; rewrite E; [exact Hn|].
  pose proof (numbered_fresh s Hn) as Hfresh.
  rewrite (map_size_insert_None _ _ _ Hfresh).
  intros u. rewrite lookup_insert_is_Some. split.
  - intros [<-|[_ Hu]].
    + exists (size (blobUrls s)). split; [lia|reflexivity].
    + apply Hn in Hu as (i & Hi & ->). exists i. split; [lia|reflexivity].
  - intros (i & Hi & ->).
    destruct (decide (i = size (blobUrls s))) as [->|Hne].
    + left. reflexivity.
    + right. split.
      * unfold fresh_url. intros H.
        apply blob_prefix_inj, (inj pretty) in H. congruence.
      * apply Hn. exists i. split; [lia|reflexivity].
Qed.

Lemma reachable_numbered (s : State) : reachable s -> registry_numbered s.
Proof.
  induction 1 as [|s e _ IH]; [|apply numbered_step, IH].
  intros u. cbn. rewrite lookup_empty. split.
  - intros [b Hb]. discriminate.
  - intros (i & Hi & _). rewrite map_size_empty in Hi. lia.
Qed.

(** X14.  In every reachable state the completion of a conversion registers a
    blob URL that was not registered before: the registry grows by exactly
    one entry, the blobs of all earlier URLs stay as they are, and the new
    URL is the artifact's. *)
Theorem each_conversion_registers_one_url (s : State) (i : nat) (f : File)
    (fmt : string) (n : nat) (data : list ascii) :
  reachable s ->
  pending s !! i = Some (ConvertTask f fmt (AwaitReadFile n)) ->
  blobUrls s !! fresh_url s = None
  /\ size (blobUrls (settle i (Fulfilled data) s)) = S (size (blobUrls s))
  /\ (forall u b, blobUrls s !! u = Some b ->
                  blobUrls (settle i (Fulfilled data) s) !! u = Some b)
  /\ url <$> convertedFile (settle i (Fulfilled data) s) = Some (fresh_url s).
Proof.
  intros Hr Hi. pose proof (numbered_fresh s (reachable_numbered s Hr)) as Hf.
  unfold settle. rewrite Hi. cbn.
  split; [exact Hf|]. split; [apply map_size_insert_None, Hf|].
  split; [|reflexivity].
  intros u b Hu. rewrite lookup_insert_ne; [exact Hu|].
  intros <-. rewrite Hf in Hu. discriminate.
Qed.

Lemma reachable_run_from (s : State) (es : list Event) :
  reachable s -> reachable (run s es).
Proof.
  revert s. induction es as [|e es IH]; intros s Hr; [exact Hr|].
  change (run s (e :: es)) with (run (step s e) es).
  apply IH, reachable_step, Hr.
Qed.

Lemma second_conversion_witness :
  blobUrls (run converted (ClickConvert :: replicate 4 (Settle 0 ok)))
    !! fresh_url (run converted (ClickConvert :: replicate 4 (Settle 0 ok)))
    = None
  /\ size (blobUrls
             (settle 0 (Fulfilled [])
                (run converted (ClickConvert :: replicate 4 (Settle 0 ok)))))
     = S (size (blobUrls
                  (run converted (ClickConvert :: replicate 4 (Settle 0 ok)))))
  /\ (forall u b,
        blobUrls (run converted (ClickConvert :: replicate 4 (Settle 0 ok)))
          !! u = Some b ->
        blobUrls
          (settle 0 (Fulfilled [])
             (run converted (ClickConvert :: replicate 4 (Settle 0 ok))))
          !! u = Some b)
  /\ url <$> convertedFile
               (settle 0 (Fulfilled [])
                  (run converted (ClickConvert :: replicate 4 (Settle 0 ok))))
     = Some (fresh_url
               (run converted (ClickConvert :: replicate 4 (Settle 0 ok)))).
Proof.
  refine (each_conversion_registers_one_url
            (run converted (ClickConvert :: replicate 4 (Settle 0 ok)))
            0 clip "webm" 0 [] _ _).
  - apply reachable_run_from, reachable_run.
  - vm_compute. reflexivity.
Defined.

(** After the second conversion two URLs are registered, [blob:0] of the
    discarded first artifact among them. *)
Example two_conversions_two_urls :
  dom (blobUrls (run converted (ClickConvert :: replicate 5 (Settle 0 ok))))
  = {["blob:0"; "blob:1"]}.
Proof. vm_compute. reflexivity. Qed.

(** ** The order of the engine calls *)

Lemma in_job_order_snoc (calls : list EngineCall) (c : EngineCall) :
  in_job_order calls ->
  may_follow (last calls) c ->
  in_job_order (calls ++ [c]).
Proof.
  intros Hord Hc k c' Hk.
  destruct (decide (k < length calls)%nat) as [Hlt|Hge].
  - rewrite lookup_app_l in Hk by exact Hlt.
    specialize (Hord k c' Hk).
    destruct k as [|k']; [exact Hord|].
    rewrite lookup_app_l by lia. exact Hord.
  - rewrite lookup_app_r in Hk by lia.
    destruct (k - length calls)%nat as [|j] eqn:Ej;
      [|destruct j; discriminate].
    injection Hk as <-.
    assert (k = length calls) as -> by lia.
    rewrite last_lookup in Hc.
    destruct calls as [|c0 calls']; [exact Hc|].
    cbn [length pred] in Hc |- *.
    rewrite lookup_app_l by (cbn; lia). exact Hc.
Qed.

Lemma calls_follow_job_step (s : State) (e : Event) :
  one_job_at_a_time s -> calls_follow_job s -> calls_follow_job (step s e).
Proof.
  destruct s as [f fmt il ld pr cf er lg ref pd calls urls dl].
  unfold one_job_at_a_time, calls_follow_job.
  cbn [pending isLoading isFFmpegLoaded engineCalls].
  destruct pd as [|t [|t' pd]]; [| |destruct t; contradiction].
  - intros -> [Hord _].
    destruct e as [|sel|v| | | |i r|m|q];
      try (destruct sel); destruct ld, f, cf, ref; cbn;
      try (unfold settle; destruct i; cbn);
      split; auto.
  - intros H [Hord Hlast].
    destruct e as [|sel|v| | | |i r|m|q];
      try (destruct sel); try (destruct i as [|[|i]]);
      destruct t as [st|tf tfmt st]; destruct H as [-> ->];
      try (destruct st); try (destruct r); destruct f, cf, ref;
      cbn in Hlast |- *; unfold settle; cbn;
      (split; [|try exact I; try exact Hlast;
                try (rewrite last_snoc; eauto; fail)]);
      try exact Hord;
      repeat (apply in_job_order_snoc; [|cbn; rewrite ?last_snoc; eauto]);
      try exact Hord;
      (destruct Hlast as [data0 Hlast]; exists tf, tfmt, data0;
       split; [exact Hlast|reflexivity]).
Qed.

Lemma reachable_calls_follow_job (s : State) :
  reachable s -> calls_follow_job s.
Proof.
  induction 1 as [|s e Hr IH].
  - split; [|exact I]. intros k c Hk. destruct k; discriminate.
  - apply calls_follow_job_step; [apply reachable_one_job, Hr|exact IH].
Qed.

(** X15.  In the record of calls the engine has received in a reachable state,
    however the events were interleaved, every [exec] stands right after
    the [writeFile] of the input file its command names, on the same
    instance; every [readFile] stands right after an [exec] on the same
    instance and reads the output that command names; every [load] stands
    right after the construction of its instance. *)
Theorem engine_calls_in_job_order (s : State) (k : nat) (c : EngineCall) :
  reachable s ->
  engineCalls s !! k = Some c ->
  may_follow (match k with O => None | S k' => engineCalls s !! k' end) c.
Proof.
  intros Hr Hk. destruct (reachable_calls_follow_job s Hr) as [Hord _].
  exact (Hord k c Hk).
Qed.

Lemma engine_calls_order_witness :
  may_follow (engineCalls converted !! 2%nat)
             (CallExec 0 (command clip "webm")).
Proof.
  refine (engine_calls_in_job_order converted 3
            (CallExec 0 (command clip "webm")) _ _).
  - apply reachable_run.
  - vm_compute. reflexivity.
Defined.

(** The record of a load and one conversion. *)
Example engine_calls_of_one_conversion :
  engineCalls converted =
  [CallNew 0;
   CallLoad 0 coreURL wasmURL workerURL;
   CallWriteFile 0 "input.mov" [];
   CallExec 0 (command clip "webm");
   CallReadFile 0 "output.webm"].
Proof. vm_compute. reflexivity. Qed.
